(** * paint-optimizer: a shallow embedding of [src/app/paint-optimizer.js]

    The optimizer enumerates every assignment of [colors] paints to
    gloss ("0") or matte ("1"), ranks the candidates by the number of matte
    paints, and returns the first candidate that pleases every client.

    Conventions of the embedding.
    - A JavaScript string is a [string]: a sequence of code units.  Every
      string the program builds is ASCII, where code units, code points and
      bytes coincide.
    - [undefined] is [None]; a value that is a string or [undefined] is an
      [option string].
    - Numbers that count (colors, candidates, lengths) are naturals; numbers
      that come out of [parseInt] are of type [number], which adds [NaN].
      Bounds of the engine on the size of an array and on memory are not part
      of the model.
    - A [Map] is an association list in insertion order, which is the order
      [for ... of] visits it in. *)

From Stdlib Require Import List Arith ZArith NArith Lia Bool.
From Stdlib Require Import Ascii String.
From Stdlib Require Import Sorting.Sorted Sorting.Permutation.
Import ListNotations.

Local Open Scope string_scope.
Local Open Scope list_scope.

(** ** Built-ins of the language used by the module *)

Module JS.

(** A number produced by [parseInt] and arithmetic on it: an integer or
    [NaN]. *)
Inductive number : Type :=
| NaN : number
| Int : Z -> number.

Definition number_eqb (a b : number) : bool :=
  match a, b with
  | NaN, NaN => true
  | Int x, Int y => Z.eqb x y
  | _, _ => false
  end.

(** [s[i]]: the one-unit string at index [i], or [undefined] when [i] is
    not the index of a unit of [s]. *)
Definition char_at (s : string) (i : number) : option string :=
  match i with
  | NaN => None
  | Int z =>
      if (z <? 0)%Z then None
      else match String.get (Z.to_nat z) s with
           | Some c => Some (String c EmptyString)
           | None => None
           end
  end.

(** [v === t] for [v] a string or [undefined] and [t] a string. *)
Definition strict_eq (v : option string) (t : string) : bool :=
  match v with
  | Some u => String.eqb u t
  | None => false
  end.

(** [String.prototype.repeat]. *)
Fixpoint repeat (s : string) (count : nat) : string :=
  match count with
  | O => ""
  | S count' => s ++ repeat s count'
  end.

(** Digits of a positive integer in base 2, most significant first. *)
Fixpoint pos_to_string2 (p : positive) : string :=
  match p with
  | xH => "1"
  | xO p' => pos_to_string2 p' ++ "0"
  | xI p' => pos_to_string2 p' ++ "1"
  end.

(** [Number.prototype.toString.call(k, 2)] for an integer [k >= 0]. *)
Definition toString2 (k : N) : string :=
  match k with
  | N0 => "0"
  | Npos p => pos_to_string2 p
  end.

(** [Array.prototype.find]. *)
Definition find {A : Type} (p : A -> bool) (l : list A) : option A :=
  List.find p l.

(** [Array.prototype.sort] with a comparator, as a stable sort (which the
    language requires it to be): an element moves in front of another only
    when the comparator is positive on them. *)
Section Sort.
Context {A : Type} (compareFn : A -> A -> Z).

Fixpoint sort_insert (x : A) (l : list A) : list A :=
  match l with
  | [] => [x]
  | y :: l' =>
      if (compareFn x y <=? 0)%Z then x :: y :: l'
      else y :: sort_insert x l'
  end.

Fixpoint sort (l : list A) : list A :=
  match l with
  | [] => []
  | x :: l' => sort_insert x (sort l')
  end.
End Sort.

(** Outcome of a call: a value, or an exception thrown. *)
Inductive exception : Type :=
| TypeError : exception
| RangeError : exception
| SystemError : exception.

Inductive completion (A : Type) : Type :=
| Return : A -> completion A
| Throw : exception -> completion A.
Arguments Return {A} _.
Arguments Throw {A} _.

(** The units below 256 that [\s] matches and that [parseInt] skips:
    tab, line feed, vertical tab, form feed, carriage return, space and
    no-break space. *)
Definition is_whitespace (c : ascii) : bool :=
  let code := N_of_ascii c in
  ((9 <=? code) && (code <=? 13) || (code =? 32) || (code =? 160))%N.

Fixpoint skip_whitespace (s : string) : string :=
  match s with
  | EmptyString => EmptyString
  | String c rest => if is_whitespace c then skip_whitespace rest else s
  end.

(** Value of a digit in a radix of at most ten. *)
Definition digit_value (radix : Z) (c : ascii) : option Z :=
  let code := Z.of_N (N_of_ascii c) in
  if ((48 <=? code) && (code <? 48 + radix))%Z then Some (code - 48)%Z
  else None.

(** The longest prefix of digits, read most significant digit first. *)
Fixpoint parse_digits (radix : Z) (s : string) (value : Z) : Z :=
  match s with
  | EmptyString => value
  | String c rest =>
      match digit_value radix c with
      | Some d => parse_digits radix rest (value * radix + d)
      | None => value
      end
  end.

(** [parseInt(input, radix)] for a radix from 2 to 10 and an input that is
    a string or [undefined].  The value is exact: the rounding of integers
    beyond [2 ^ 53] is not part of the model. *)
Definition parseInt (input : option string) (radix : Z) : number :=
  match input with
  | None => NaN
  | Some str =>
      let trimmed := skip_whitespace str in
      let (sign, body) :=
        match trimmed with
        | String "-" rest => ((-1)%Z, rest)
        | String "+" rest => (1%Z, rest)
        | _ => (1%Z, trimmed)
        end in
      match body with
      | EmptyString => NaN
      | String c _ =>
          match digit_value radix c with
          | Some _ => Int (sign * parse_digits radix body 0)
          | None => NaN
          end
      end
  end.

(** [a - 1]. *)
Definition minus_one (a : number) : number :=
  match a with
  | NaN => NaN
  | Int z => Int (z - 1)
  end.

(** [String.prototype.split] at every unit that [separator] accepts. *)
Fixpoint split (separator : ascii -> bool) (s : string) : list string :=
  match s with
  | EmptyString => [EmptyString]
  | String c rest =>
      if separator c then EmptyString :: split separator rest
      else match split separator rest with
           | token :: tokens => String c token :: tokens
           | [] => [String c EmptyString]
           end
  end.

(** [Array.prototype.shift]: the element removed, and the array after. *)
Definition shift {A : Type} (array : list A) : option A * list A :=
  match array with
  | [] => (None, [])
  | first :: rest => (Some first, rest)
  end.

(** [Map.prototype.set]: the value of a key that is present is replaced
    where it stands, a new key goes last. *)
Fixpoint map_set {V : Type} (m : list (number * V)) (key : number) (value : V)
    : list (number * V) :=
  match m with
  | [] => [(key, value)]
  | (key', value') :: m' =>
      if number_eqb key' key then (key', value) :: m'
      else (key', value') :: map_set m' key value
  end.

(** [Map.prototype.size]. *)
Definition map_size {V : Type} (m : list (number * V)) : number :=
  Int (Z.of_nat (List.length m)).

End JS.

(** ** The optimizer's functions *)

(** The [for] loop of [createPossibleSolutions]: [count] iterations are left,
    and the next index to fill is [possibleSolution]. *)
Fixpoint fillPossibleSolutions (count : nat) (possibleSolution : N) : list N :=
  match count with
  | O => []
  | S count' =>
      possibleSolution :: fillPossibleSolutions count' (N.succ possibleSolution)
  end.

Definition createPossibleSolutions (colors : nat) : list N :=
  let numberOfPossibleSolutions := 2 ^ colors in
  fillPossibleSolutions numberOfPossibleSolutions 0%N.

Definition convertDecimalSolutionToBinary (decimalEncodedSolution : N) : string :=
  JS.toString2 decimalEncodedSolution.

(** The loop of [characterCount], with the counter [charactersFound] as
    accumulator.  [for ... of] walks the characters of the string; the
    strings of the model have no character of two units, so that a
    character is a unit. *)
Fixpoint characterCount_loop (chars : string) (characterToCount : string)
    (charactersFound : Z) : Z :=
  match chars with
  | EmptyString => charactersFound
  | String char rest =>
      if JS.strict_eq (Some (String char EmptyString)) characterToCount
      then characterCount_loop rest characterToCount (charactersFound + 1)
      else characterCount_loop rest characterToCount charactersFound
  end.

Definition characterCount (string : string) (characterToCount : String.string) : Z :=
  characterCount_loop string characterToCount 0.

Definition sortPossibleSolutions (characterToSortBy : string)
    : string -> string -> Z :=
  fun first second =>
    (characterCount first characterToSortBy
     - characterCount second characterToSortBy)%Z.

Definition padPossibleSolution (requiredLength : nat) (paddingCharacter : string)
    : string -> string :=
  fun possibleSolution =>
    if (String.length possibleSolution <? requiredLength)%nat
    then (JS.repeat paddingCharacter (requiredLength - String.length possibleSolution)
          ++ possibleSolution)%string
    else possibleSolution.

(** One entry of a client's [Map]: the column and the type asked for. *)
Definition RequirementPair : Type := (JS.number * string)%type.
Definition ClientRequirement : Type := list RequirementPair.
(** The outer [Map]: client key to that client's requirements. *)
Definition RequirementSet : Type := list (JS.number * ClientRequirement).

Fixpoint areRequirementsSatisfied (possibleSolution : string)
    (requirements : ClientRequirement) : bool :=
  match requirements with
  | [] => false
  | (columnIndex, requestedType) :: rest =>
      if JS.strict_eq (JS.char_at possibleSolution columnIndex) requestedType
      then true
      else areRequirementsSatisfied possibleSolution rest
  end.

Fixpoint doesSolutionSatisfyAllClients (allRequirements : RequirementSet)
    (possibleSolution : string) : bool :=
  match allRequirements with
  | [] => true
  | (_, clientRequirements) :: rest =>
      if Bool.eqb (areRequirementsSatisfied possibleSolution clientRequirements) false
      then false
      else doesSolutionSatisfyAllClients rest possibleSolution
  end.

(** The array the final [find] of [findCheapestSolution] scans. *)
Definition rankedSolutions (colors : nat) : list string :=
  map (padPossibleSolution colors "0")
    (JS.sort (sortPossibleSolutions "1")
       (map convertDecimalSolutionToBinary (createPossibleSolutions colors))).

Definition findCheapestSolution (colors : nat) (allRequirements : RequirementSet)
    : option string :=
  JS.find (doesSolutionSatisfyAllClients allRequirements) (rankedSolutions colors).

(** ** Reading the problem and printing the answer *)

Section Files.

(** [readFileSync(fileName, {encoding: "utf8"})]: the text of the file, or
    [None] when the call throws. *)
Variable readFileSync : string -> option string.

Definition readFileContents (fileName : string) : JS.completion (list string) :=
  match readFileSync fileName with
  | Some fileContents =>
      JS.Return (JS.split (Ascii.eqb "010"%char) fileContents)
  | None => JS.Throw JS.SystemError
  end.

End Files.

(** The loop of [parseFileInputLine], two tokens at a time; a last token
    without a partner has [colorType] undefined. *)
Fixpoint parseFileInputLine_loop (clientRequirementTokens : list string)
    (clientRequirements : ClientRequirement) : ClientRequirement :=
  let step (colorID : string) (colorType : option string) :=
    let mappedColourID := JS.minus_one (JS.parseInt (Some colorID) 10) in
    let mappedColorType := if JS.strict_eq colorType "G" then "0" else "1" in
    JS.map_set clientRequirements mappedColourID mappedColorType in
  match clientRequirementTokens with
  | [] => clientRequirements
  | [colorID] => step colorID None
  | colorID :: colorType :: rest =>
      parseFileInputLine_loop rest (step colorID (Some colorType))
  end.

Definition parseFileInputLine (line : string) : ClientRequirement :=
  let clientRequirementTokens := JS.split JS.is_whitespace line in
  parseFileInputLine_loop clientRequirementTokens [].

Record ParsedInput : Type := {
  colors : JS.number;
  allRequirements : RequirementSet
}.

(** The loop of [parseFileInput] over the lines left in the array. *)
Fixpoint parseFileInput_loop (lines : list string) (allRequirements : RequirementSet)
    : RequirementSet :=
  match lines with
  | [] => allRequirements
  | line :: rest =>
      let clientRequirements := parseFileInputLine line in
      parseFileInput_loop rest
        (JS.map_set allRequirements (JS.map_size allRequirements) clientRequirements)
  end.

(** [parseFileInput] changes the array it is given: the result is paired
    with the array as the call leaves it. *)
Definition parseFileInput (fileLines : list string) : ParsedInput * list string :=
  let (first, fileLines') := JS.shift fileLines in
  let colors := JS.parseInt first 10 in
  let allRequirements := parseFileInput_loop fileLines' [] in
  ({| colors := colors; allRequirements := allRequirements |}, fileLines').

(** The loop of [optimizer] over the digits of the solution. *)
Fixpoint transformSolution_loop (cheapestSolution : string)
    (transformedSolution : string) : string :=
  match cheapestSolution with
  | EmptyString => transformedSolution
  | String encodedColor rest =>
      let decodedColor :=
        if JS.strict_eq (Some (String encodedColor EmptyString)) "0"
        then "G" else "M" in
      transformSolution_loop rest (transformedSolution ++ (decodedColor ++ " "))
  end.

(** The last step of [optimizer]: from the solution to the text printed. *)
Definition transformSolution (cheapestSolution : option string) : string :=
  match cheapestSolution with
  | None => "No solution exists"
  | Some solution => transformSolution_loop solution ""
  end.

(** [findCheapestSolution(colors, allRequirements)] as [optimizer] calls
    it, with whatever number [parseInt] gave.  [Math.pow(2, colors)] is the
    length asked of [new Array]:
    - for [NaN] it is [NaN], and for a negative integer down to -1074, the
      least power of 2 a double holds, it is a fraction: [new Array]
      throws;
    - below -1074 the power rounds to 0: the array is empty and [find] has
      nothing to return;
    - for a natural number it is [2 ^ colors]. *)
Definition findCheapestSolution_call (colors : JS.number)
    (allRequirements : RequirementSet) : JS.completion (option string) :=
  match colors with
  | JS.NaN => JS.Throw JS.RangeError
  | JS.Int z =>
      if (z <? -1074)%Z
      then JS.Return (JS.find (doesSolutionSatisfyAllClients allRequirements) [])
      else if (z <? 0)%Z then JS.Throw JS.RangeError
      else JS.Return (findCheapestSolution (Z.to_nat z) allRequirements)
  end.

Section Optimizer.

Variable readFileSync : string -> option string.

(** [optimizer([fileName])]. *)
Definition optimizer (argv : list string) : JS.completion string :=
  match argv with
  | [] => JS.Throw JS.TypeError
  | fileName :: _ =>
      match readFileContents readFileSync fileName with
      | JS.Throw e => JS.Throw e
      | JS.Return fileLines =>
          let (parsed, _) := parseFileInput fileLines in
          match findCheapestSolution_call (colors parsed) (allRequirements parsed) with
          | JS.Throw e => JS.Throw e
          | JS.Return cheapestSolution =>
              JS.Return (transformSolution cheapestSolution)
          end
      end
  end.

End Optimizer.

(** ** Vocabulary of the properties *)

Definition is_binary_digit (c : ascii) : bool :=
  Ascii.eqb c "0" || Ascii.eqb c "1".

(** Every unit of the string is a binary digit. *)
Fixpoint all_binary (s : string) : bool :=
  match s with
  | EmptyString => true
  | String c rest => is_binary_digit c && all_binary rest
  end.

(** Reading a string as a numeral in base 2: [parseInt(s, 2)]. *)
Definition parseBinary (s : string) : JS.number :=
  JS.parseInt (Some s) 2.

(** The cost of an assignment, as the data model has it: how many of its
    digits are "1".  The count is the library's, over the list of the units
    of the string; it owes nothing to the counter of the module. *)
Definition cost (assignment : string) : Z :=
  Z.of_nat (count_occ ascii_dec (list_ascii_of_string assignment) "1"%char).

(** A pair matches an assignment when the digit at its position is the value
    it asks for. *)
Definition pair_matches (assignment : string) (pair : RequirementPair) : Prop :=
  JS.char_at assignment (fst pair) = Some (snd pair).

(** A client is satisfied when one of its pairs matches. *)
Definition client_satisfied (assignment : string) (client : ClientRequirement) : Prop :=
  exists pair, In pair client /\ pair_matches assignment pair.

(** The clients of a requirement set, without their keys. *)
Definition clients (allRequirements : RequirementSet) : list ClientRequirement :=
  map snd allRequirements.

Definition satisfies_all (allRequirements : RequirementSet) (assignment : string) : Prop :=
  forall client, In client (clients allRequirements) ->
    client_satisfied assignment client.

(** A comparator that is the difference of a key, as the one
    [sortPossibleSolutions] returns. *)
Definition compare_by {A : Type} (key : A -> Z) : A -> A -> Z :=
  fun first second => (key first - key second)%Z.

(** Two elements in ascending order of a key. *)
Definition ascending {A : Type} (key : A -> Z) (a b : A) : Prop :=
  (key a <= key b)%Z.

(** The elements whose key is [k], in the order they have in the list. *)
Definition run_of {A : Type} (key : A -> Z) (k : Z) (l : list A) : list A :=
  filter (fun a => (key a =? k)%Z) l.

(** A position that is the index of a digit of an assignment of width [n]. *)
Definition in_range (n : nat) (position : JS.number) : Prop :=
  match position with
  | JS.NaN => False
  | JS.Int z => (0 <= z < Z.of_nat n)%Z
  end.

(** The output contract, in the words of the format's description: each
    digit becomes its letter, "0" gloss and "1" matte, and a space follows
    every letter.  A string with another unit has no rendering. *)
Definition letter_spec (digit : ascii) : option string :=
  if Ascii.eqb digit "0" then Some "G"
  else if Ascii.eqb digit "1" then Some "M"
  else None.

Fixpoint render_spec (assignment : string) : option string :=
  match assignment with
  | EmptyString => Some ""
  | String digit rest =>
      match letter_spec digit, render_spec rest with
      | Some letter, Some rendering => Some (letter ++ " " ++ rendering)%string
      | _, _ => None
      end
  end.

(** The assignments over [n] colors: the strings of [n] binary digits. *)
Definition is_assignment (n : nat) (s : string) : Prop :=
  String.length s = n /\ all_binary s = true.

(** The number a string of binary digits denotes. *)
Definition binary_value (s : string) : Z :=
  JS.parse_digits 2 s 0.

(** The order of the scan: by cost first, and at equal cost by the number
    denoted. *)
Definition scanned_before (a b : string) : Prop :=
  (cost a < cost b)%Z
  \/ (cost a = cost b /\ binary_value a < binary_value b)%Z.

(** The candidate without matte paint: one "0" per color, and a single "0"
    when there is no color. *)
Definition all_gloss (n : nat) : string :=
  JS.repeat "0" (Nat.max n 1).

(** Some unit of the string passes the test. *)
Fixpoint has_unit (p : ascii -> bool) (s : string) : bool :=
  match s with
  | EmptyString => false
  | String c rest => p c || has_unit p rest
  end.

(** The keys [parseFileInput] gives the clients: 0, 1, 2, ... *)
Definition client_keys (count : nat) : list JS.number :=
  map (fun i => JS.Int (Z.of_nat i)) (seq 0 count).

(** What a map of requirements made by the parser looks like. *)
Definition well_formed_client (client : ClientRequirement) : Prop :=
  NoDup (map fst client)
  /\ Forall (fun pair => snd pair = "0"%string \/ snd pair = "1"%string) client.

(** The first line of a text. *)
Definition first_line (text : string) : string :=
  hd EmptyString (JS.split (Ascii.eqb "010"%char) text).

(** ** Sample data: the repository's tests *)

Local Open Scope Z_scope.

Definition pair_of (column : Z) (type : string) : RequirementPair :=
  (JS.Int column, type).

Definition client_of (key : Z) (pairs : list (Z * string))
    : JS.number * ClientRequirement :=
  (JS.Int key, map (fun p => pair_of (fst p) (snd p)) pairs).

Definition newline : string := String "010"%char EmptyString.

Definition testInput : string :=
  "5" ++ newline ++ "1 M 3 G 5 G" ++ newline ++ "2 G 3 M 4 G" ++ newline ++ "5 M".

(** An input no assignment satisfies: two clients ask the only color for
    opposite types. *)
Definition unsatisfiableInput : string :=
  "1" ++ newline ++ "1 G" ++ newline ++ "1 M".

Definition testFiles (fileName : string) : option string :=
  if String.eqb fileName "testInput.txt" then Some testInput
  else if String.eqb fileName "unsatisfiableInput.txt" then Some unsatisfiableInput
  else None.

(** Two requirement sets with the same clients under other keys, in
    another order, one of them twice. *)
Definition sameClientsFirst : RequirementSet :=
  [client_of 0 [(0, "0"); (1, "1")]; client_of 1 [(0, "1")]].

Definition sameClientsSecond : RequirementSet :=
  [client_of 7 [(0, "1")]; client_of 3 [(0, "0"); (1, "1")]; client_of 9 [(0, "1")]].

(** A client without pairs among others. *)
Definition withEmptyClient : RequirementSet :=
  [client_of 0 [(0, "0")]; client_of 1 []].

(** ** Checks against the repository's tests *)

Example createPossibleSolutions_4 :
  createPossibleSolutions 4
  = [0; 1; 2; 3; 4; 5; 6; 7; 8; 9; 10; 11; 12; 13; 14; 15]%N.
Proof. reflexivity. Qed.

Example convertSolutionsToBinary_3 :
  map convertDecimalSolutionToBinary (createPossibleSolutions 3)
  = ["0"; "1"; "10"; "11"; "100"; "101"; "110"; "111"].
Proof. reflexivity. Qed.

Example padPossibleSolution_3 :
  map (padPossibleSolution 3 "0")
    ["0"; "1"; "10"; "100"; "1000"; "11"; "101"; "110"; "111"]
  = ["000"; "001"; "010"; "100"; "1000"; "011"; "101"; "110"; "111"].
Proof. reflexivity. Qed.

Example areRequirementsSatisfied_last :
  areRequirementsSatisfied "00000" [pair_of 0 "1"; pair_of 4 "0"] = true.
Proof. reflexivity. Qed.

Example areRequirementsSatisfied_none :
  areRequirementsSatisfied "10000" [pair_of 0 "0"; pair_of 4 "1"] = false.
Proof. reflexivity. Qed.

Example findCheapestSolution_outlying :
  findCheapestSolution 5%nat
    [client_of 0 [(0, "1"); (2, "0"); (4, "0")];
     client_of 1 [(1, "0"); (2, "1"); (3, "0")];
     client_of 2 [(4, "1")]]
  = Some "00001".
Proof. vm_compute. reflexivity. Qed.

Example findCheapestSolution_opposite :
  findCheapestSolution 1%nat [client_of 0 [(0, "0")]; client_of 1 [(0, "1")]] = None.
Proof. vm_compute. reflexivity. Qed.

Example findCheapestSolution_all_expensive :
  findCheapestSolution 2%nat
    [client_of 0 [(0, "0"); (1, "1")]; client_of 1 [(0, "1")]]
  = Some "11".
Proof. vm_compute. reflexivity. Qed.

Example findCheapestSolution_many :
  findCheapestSolution 5%nat
    [client_of 0 [(1, "1")]; client_of 1 [(4, "0")]; client_of 2 [(0, "0")];
     client_of 3 [(0, "0"); (3, "1"); (4, "0")]; client_of 4 [(2, "0")];
     client_of 5 [(4, "0")]; client_of 6 [(0, "0"); (2, "0"); (4, "0")];
     client_of 7 [(2, "0")]; client_of 8 [(1, "1")];
     client_of 9 [(0, "0"); (4, "0")]; client_of 10 [(1, "1")];
     client_of 11 [(4, "0")]; client_of 12 [(3, "1")];
     client_of 13 [(3, "1"); (4, "0")]]
  = Some "01010".
Proof. vm_compute. reflexivity. Qed.

Example readFileContents_lines :
  readFileContents testFiles "testInput.txt"
  = JS.Return ["5"; "1 M 3 G 5 G"; "2 G 3 M 4 G"; "5 M"].
Proof. reflexivity. Qed.

Example parseFileInputLine_test :
  parseFileInputLine "2 G 3 M 4 G" = [pair_of 1 "0"; pair_of 2 "1"; pair_of 3 "0"].
Proof. reflexivity. Qed.

Example parseFileInput_test :
  fst (parseFileInput ["5"; "1 M 3 G 5 G"; "2 G 3 M 4 G"; "5 M"])
  = {| colors := JS.Int 5;
       allRequirements :=
         [client_of 0 [(0, "1"); (2, "0"); (4, "0")];
          client_of 1 [(1, "0"); (2, "1"); (3, "0")];
          client_of 2 [(4, "1")]] |}.
Proof. reflexivity. Qed.

Example optimizer_finds_cheapest :
  optimizer testFiles ["testInput.txt"] = JS.Return "G G G G M ".
Proof. vm_compute. reflexivity. Qed.

Example optimizer_no_solution :
  optimizer testFiles ["unsatisfiableInput.txt"] = JS.Return "No solution exists".
Proof. vm_compute. reflexivity. Qed.

Local Close Scope Z_scope.

(** ** Strings *)

Local Open Scope string_scope.

Lemma append_nil_r (s : string) : s ++ "" = s.
Proof. induction s as [|c s IH]; simpl; [reflexivity | now rewrite IH]. Qed.

Lemma append_assoc (s t u : string) : (s ++ t) ++ u = s ++ (t ++ u).
Proof. induction s as [|c s IH]; simpl; [reflexivity | now rewrite IH]. Qed.

Lemma length_append (s t : string) :
  String.length (s ++ t) = (String.length s + String.length t)%nat.
Proof. induction s as [|c s IH]; simpl; [reflexivity | now rewrite IH]. Qed.

Lemma all_binary_append (s t : string) :
  all_binary (s ++ t) = all_binary s && all_binary t.
Proof.
  induction s as [|c s IH]; simpl; [reflexivity |].
  now rewrite IH, andb_assoc.
Qed.

(** ** The binary encoder *)

Lemma pos_to_string2_head (p : positive) :
  exists rest, JS.pos_to_string2 p = String "1" rest.
Proof.
  induction p as [p [r IH] | p [r IH] |]; simpl.
  - rewrite IH. now exists (r ++ "1").
  - rewrite IH. now exists (r ++ "0").
  - now exists "".
Qed.

Lemma pos_to_string2_binary (p : positive) :
  all_binary (JS.pos_to_string2 p) = true.
Proof.
  induction p as [p IH | p IH |]; simpl; try reflexivity;
    now rewrite all_binary_append, IH.
Qed.

Lemma binary_digit_value (c : ascii) :
  is_binary_digit c = true ->
  JS.digit_value 2 c = Some (if Ascii.eqb c "1" then 1 else 0)%Z.
Proof.
  unfold is_binary_digit. intros H. apply orb_true_iff in H.
  destruct H as [H | H]; apply Ascii.eqb_eq in H; subst c; reflexivity.
Qed.

Lemma parse_digits_append (s t : string) (value : Z) :
  all_binary s = true ->
  JS.parse_digits 2 (s ++ t) value = JS.parse_digits 2 t (JS.parse_digits 2 s value).
Proof.
  revert value. induction s as [|c s IH]; intros value H; simpl in *.
  - reflexivity.
  - apply andb_true_iff in H. destruct H as [Hc Hs].
    rewrite (binary_digit_value c Hc). now apply IH.
Qed.

Lemma parse_digits_pos (p : positive) :
  JS.parse_digits 2 (JS.pos_to_string2 p) 0 = Z.pos p.
Proof.
  induction p as [p IH | p IH |]; simpl; try reflexivity;
    rewrite parse_digits_append by apply pos_to_string2_binary;
    rewrite IH; simpl; lia.
Qed.

Lemma parseBinary_digits (s : string) :
  all_binary s = true -> s <> "" ->
  parseBinary s = JS.Int (JS.parse_digits 2 s 0).
Proof.
  destruct s as [|c s]; [congruence |]. intros H _.
  simpl in H. apply andb_true_iff in H. destruct H as [Hc _].
  unfold is_binary_digit in Hc. apply orb_true_iff in Hc.
  destruct Hc as [Hc | Hc]; apply Ascii.eqb_eq in Hc; subst c;
    unfold parseBinary, JS.parseInt; cbn;
    match goal with |- JS.Int ?a = JS.Int ?b => replace a with b; [reflexivity |] end;
    match goal with |- _ = match ?x with _ => _ end => destruct x end; reflexivity.
Qed.

Lemma convertDecimalSolutionToBinary_binary (k : N) :
  all_binary (convertDecimalSolutionToBinary k) = true.
Proof. destruct k as [|p]; [reflexivity | apply pos_to_string2_binary]. Qed.

(** C6. The encoder writes the standard numeral in base 2: 0 is "0" and 5 is
    "101"; every digit is binary; only the numeral of 0 starts with "0";
    and reading the numeral back in base 2 gives the number encoded. *)
Theorem binary_encoder_roundtrip :
  convertDecimalSolutionToBinary 0 = "0"
  /\ convertDecimalSolutionToBinary 5 = "101"
  /\ forall k : N,
       all_binary (convertDecimalSolutionToBinary k) = true
       /\ (k = 0%N /\ convertDecimalSolutionToBinary k = "0"
           \/ k <> 0%N
              /\ exists rest, convertDecimalSolutionToBinary k = String "1" rest)
       /\ parseBinary (convertDecimalSolutionToBinary k) = JS.Int (Z.of_N k).
Proof.
  split; [reflexivity |]. split; [reflexivity |].
  intros [|p]; unfold convertDecimalSolutionToBinary; simpl.
  - split; [reflexivity |]. split; [now left | reflexivity].
  - split; [apply pos_to_string2_binary |]. split.
    + right. split; [discriminate | apply pos_to_string2_head].
    + rewrite parseBinary_digits.
      * now rewrite parse_digits_pos.
      * apply pos_to_string2_binary.
      * destruct (pos_to_string2_head p) as [r ->]. discriminate.
Qed.

(** ** The stable sort *)

Local Open Scope list_scope.

Section SortByKey.

Context {A : Type} (key : A -> Z).

Let by_key : A -> A -> Z := compare_by key.
Let key_le : A -> A -> Prop := ascending key.
Let with_key : Z -> list A -> list A := run_of key.

Local Ltac unfold_key := unfold key_le, by_key, ascending, compare_by in *.

Lemma sort_insert_perm (x : A) (l : list A) :
  Permutation (x :: l) (JS.sort_insert by_key x l).
Proof.
  induction l as [|y l IH]; simpl.
  - apply Permutation_refl.
  - destruct (by_key x y <=? 0)%Z.
    + apply Permutation_refl.
    + eapply perm_trans; [apply perm_swap | now apply perm_skip].
Qed.

Lemma sort_perm (l : list A) : Permutation l (JS.sort by_key l).
Proof.
  induction l as [|x l IH]; simpl.
  - apply perm_nil.
  - eapply perm_trans; [apply perm_skip, IH | apply sort_insert_perm].
Qed.

Lemma sort_insert_sorted (x : A) (l : list A) :
  StronglySorted key_le l -> StronglySorted key_le (JS.sort_insert by_key x l).
Proof.
  induction 1 as [|y l Hl IH Hy]; simpl.
  - repeat constructor.
  - destruct (by_key x y <=? 0)%Z eqn:E; unfold_key.
    + apply Z.leb_le in E. constructor; [now constructor |].
      constructor; [unfold_key; lia |].
      eapply Forall_impl; [| exact Hy]. unfold_key. intros; lia.
    + apply Z.leb_gt in E. constructor; [exact IH |].
      eapply Permutation_Forall; [apply sort_insert_perm |].
      constructor; [unfold_key; lia | exact Hy].
Qed.

Lemma sort_sorted (l : list A) : StronglySorted key_le (JS.sort by_key l).
Proof.
  induction l as [|x l IH]; simpl; [constructor | now apply sort_insert_sorted].
Qed.

Lemma sort_insert_with_key (k : Z) (x : A) (l : list A) :
  with_key k (JS.sort_insert by_key x l) = with_key k (x :: l).
Proof.
  induction l as [|y l IH]; simpl; [reflexivity |].
  destruct (by_key x y <=? 0)%Z eqn:E; [reflexivity |].
  unfold_key. apply Z.leb_gt in E.
  simpl. fold (with_key k (JS.sort_insert by_key x l)). rewrite IH. simpl.
  destruct (key y =? k)%Z eqn:Ey, (key x =? k)%Z eqn:Ex; try reflexivity.
  apply Z.eqb_eq in Ey, Ex. lia.
Qed.

Lemma sort_with_key (k : Z) (l : list A) :
  with_key k (JS.sort by_key l) = with_key k l.
Proof.
  induction l as [|x l IH]; simpl; [reflexivity |].
  rewrite sort_insert_with_key. simpl. fold (with_key k (JS.sort by_key l)).
  now rewrite IH.
Qed.

(** A stable sort has one possible result: a list in ascending order of
    the key is determined by its runs of equal keys. *)
Lemma sorted_with_key_unique (l1 l2 : list A) :
  StronglySorted key_le l1 -> StronglySorted key_le l2 ->
  (forall k, with_key k l1 = with_key k l2) ->
  l1 = l2.
Proof.
  intros S1. revert l2.
  induction S1 as [|a l1 S1 IH Ha]; intros l2 S2 E.
  - destruct l2 as [|b l2]; [reflexivity |].
    specialize (E (key b)). simpl in E. rewrite Z.eqb_refl in E. discriminate.
  - destruct S2 as [|b l2 S2 Hb].
    + specialize (E (key a)). simpl in E. rewrite Z.eqb_refl in E. discriminate.
    + assert (Hab : key a = key b).
      { apply Z.le_antisymm.
        - pose proof (E (key b)) as Eb. simpl in Eb. rewrite Z.eqb_refl in Eb.
          destruct (key a =? key b)%Z eqn:T; [apply Z.eqb_eq in T; lia |].
          assert (In b (with_key (key b) l1)) as Hin
            by (fold (with_key (key b) l1) in Eb; rewrite Eb; now left).
          apply filter_In in Hin. destruct Hin as [Hin _].
          rewrite Forall_forall in Ha. now apply Ha.
        - pose proof (E (key a)) as Ea. simpl in Ea. rewrite Z.eqb_refl in Ea.
          destruct (key b =? key a)%Z eqn:T; [apply Z.eqb_eq in T; lia |].
          assert (In a (with_key (key a) l2)) as Hin
            by (fold (with_key (key a) l2) in Ea; rewrite <- Ea; now left).
          apply filter_In in Hin. destruct Hin as [Hin _].
          rewrite Forall_forall in Hb. now apply Hb. }
      assert (a = b).
      { specialize (E (key a)). simpl in E.
        rewrite Z.eqb_refl, <- Hab, Z.eqb_refl in E. congruence. }
      subst b. f_equal. apply IH; [exact S2 |].
      intros k. specialize (E k). simpl in E.
      destruct (key a =? k)%Z; [congruence | exact E].
Qed.

Lemma stable_sort_unique (l r : list A) :
  StronglySorted key_le r ->
  (forall k, with_key k r = with_key k l) ->
  r = JS.sort by_key l.
Proof.
  intros S E. apply sorted_with_key_unique; [exact S | apply sort_sorted |].
  intros k. now rewrite E, sort_with_key.
Qed.

End SortByKey.

(** ** The cost ranker *)

Lemma sortPossibleSolutions_compare_by (characterToSortBy : string) :
  sortPossibleSolutions characterToSortBy
  = compare_by (fun s => characterCount s characterToSortBy).
Proof. reflexivity. Qed.


(** ** The requirement satisfier *)

Lemma strict_eq_true (v : option string) (t : string) :
  JS.strict_eq v t = true <-> v = Some t.
Proof.
  destruct v as [u|]; simpl.
  - rewrite String.eqb_eq. split; congruence.
  - split; discriminate.
Qed.

Lemma areRequirementsSatisfied_true (possibleSolution : string)
    (requirements : ClientRequirement) :
  areRequirementsSatisfied possibleSolution requirements = true
  <-> client_satisfied possibleSolution requirements.
Proof.
  unfold client_satisfied, pair_matches.
  induction requirements as [|[columnIndex requestedType] rest IH]; simpl.
  - split; [discriminate | intros [pair [[] _]]].
  - destruct (JS.strict_eq (JS.char_at possibleSolution columnIndex) requestedType)
      eqn:E.
    + split; [intros _ | reflexivity].
      exists (columnIndex, requestedType). split; [now left |].
      now apply strict_eq_true.
    + rewrite IH. split.
      * intros [pair [Hin Hm]]. exists pair. split; [now right | exact Hm].
      * intros [pair [[Heq | Hin] Hm]]; [| now exists pair].
        subst pair. simpl in Hm. apply strict_eq_true in Hm. congruence.
Qed.

(** C2. The requirement satisfier answers true exactly when some pair of the
    client asks, at its position, for the digit the assignment has there; a
    client without pairs is never satisfied. *)
Theorem requirement_satisfier_any_pair :
  (forall (assignment : string) (client : ClientRequirement),
     areRequirementsSatisfied assignment client = true
     <-> exists position requiredValue,
           In (position, requiredValue) client
           /\ JS.char_at assignment position = Some requiredValue)
  /\ forall assignment : string, areRequirementsSatisfied assignment [] = false.
Proof.
  split; [| reflexivity].
  intros assignment client. rewrite areRequirementsSatisfied_true.
  unfold client_satisfied, pair_matches. split.
  - intros [[position requiredValue] [Hin Hm]]. now exists position, requiredValue.
  - intros [position [requiredValue [Hin Hm]]]. now exists (position, requiredValue).
Qed.

Lemma get_beyond (s : string) (i : nat) :
  String.length s <= i -> String.get i s = None.
Proof.
  revert i. induction s as [|c s IH]; intros i H; simpl in *.
  - reflexivity.
  - destruct i as [|i]; [lia |]. apply IH. lia.
Qed.

Lemma char_at_out_of_range (n : nat) (s : string) (position : JS.number) :
  String.length s = n -> ~ in_range n position -> JS.char_at s position = None.
Proof.
  intros Hn Hr. destruct position as [|z]; simpl in *; [reflexivity |].
  destruct (z <? 0)%Z eqn:E; [reflexivity |]. apply Z.ltb_ge in E.
  rewrite get_beyond; [reflexivity | lia].
Qed.

(** C5. Indexing an assignment outside its width gives no digit, and a pair
    at such a position is dead weight: the satisfier answers with it as it
    does without it. *)
Theorem out_of_range_pair_is_dead_weight (n : nat) (assignment : string)
    (position : JS.number) (requiredValue : string)
    (before after : ClientRequirement) :
  String.length assignment = n ->
  ~ in_range n position ->
  JS.char_at assignment position = None
  /\ areRequirementsSatisfied assignment (before ++ (position, requiredValue) :: after)
     = areRequirementsSatisfied assignment (before ++ after).
Proof.
  intros Hn Hr.
  pose proof (char_at_out_of_range n assignment position Hn Hr) as Hnone.
  split; [exact Hnone |].
  induction before as [|[c t] before IH]; simpl.
  - now rewrite Hnone.
  - now rewrite IH.
Qed.

Lemma out_of_range_pair_is_dead_weight_witness :
  String.length "010" = 3
  /\ ~ in_range 3 (JS.Int 3)
  /\ JS.char_at "010" (JS.Int 3) = None
  /\ areRequirementsSatisfied "010"
       ([(JS.Int 0, "1")] ++ (JS.Int 3, "0") :: [(JS.Int 2, "0")])
     = areRequirementsSatisfied "010" ([(JS.Int 0, "1")] ++ [(JS.Int 2, "0")]).
Proof.
  assert (H : ~ in_range 3 (JS.Int 3)) by (simpl; lia).
  split; [reflexivity |]. split; [exact H |].
  apply (out_of_range_pair_is_dead_weight 3 "010" (JS.Int 3) "0"
           [(JS.Int 0, "1"%string)] [(JS.Int 2, "0"%string)]); [reflexivity | exact H].
Defined.

(** ** Satisfying every client *)

Lemma doesSolutionSatisfyAllClients_forallb (allRequirements : RequirementSet)
    (possibleSolution : string) :
  doesSolutionSatisfyAllClients allRequirements possibleSolution
  = forallb (areRequirementsSatisfied possibleSolution) (clients allRequirements).
Proof.
  induction allRequirements as [|[key client] rest IH]; simpl; [reflexivity |].
  rewrite IH. now destruct (areRequirementsSatisfied possibleSolution client).
Qed.

Lemma doesSolutionSatisfyAllClients_true (allRequirements : RequirementSet)
    (possibleSolution : string) :
  doesSolutionSatisfyAllClients allRequirements possibleSolution = true
  <-> satisfies_all allRequirements possibleSolution.
Proof.
  rewrite doesSolutionSatisfyAllClients_forallb, forallb_forall.
  unfold satisfies_all. split; intros H client Hin.
  - apply areRequirementsSatisfied_true. now apply H.
  - apply areRequirementsSatisfied_true. now apply H.
Qed.

Lemma find_none_all_false {A : Type} (p : A -> bool) (l : list A) :
  (forall x, In x l -> p x = false) -> JS.find p l = None.
Proof.
  unfold JS.find. induction l as [|a l IH]; intros H; simpl; [reflexivity |].
  rewrite (H a) by now left. apply IH. intros x Hx. apply H. now right.
Qed.

Lemma find_ext_in {A : Type} (p q : A -> bool) (l : list A) :
  (forall x, In x l -> p x = q x) -> JS.find p l = JS.find q l.
Proof.
  unfold JS.find. induction l as [|a l IH]; intros H; simpl; [reflexivity |].
  rewrite (H a) by now left. destruct (q a); [reflexivity |].
  apply IH. intros x Hx. apply H. now right.
Qed.

(** C4. A client without pairs makes the problem unsatisfiable: whatever
    the number of colors, the search returns [undefined]. *)
Theorem empty_client_no_solution (n : nat) (allRequirements : RequirementSet) :
  In [] (clients allRequirements) ->
  findCheapestSolution n allRequirements = None.
Proof.
  intros Hin. unfold findCheapestSolution. apply find_none_all_false.
  intros s _. rewrite doesSolutionSatisfyAllClients_forallb.
  apply not_true_is_false. rewrite forallb_forall. intros H.
  specialize (H [] Hin). discriminate.
Qed.

Lemma empty_client_no_solution_witness :
  In [] (clients withEmptyClient)
  /\ findCheapestSolution 3 withEmptyClient = None.
Proof.
  split; [right; left; reflexivity |].
  apply (empty_client_no_solution 3). right; left; reflexivity.
Defined.

(** C7. Two requirement sets with the same clients, whatever their keys,
    their order and their repetitions, have the same solution. *)
Theorem same_clients_same_solution (n : nat)
    (allRequirements1 allRequirements2 : RequirementSet) :
  (forall client, In client (clients allRequirements1)
                  <-> In client (clients allRequirements2)) ->
  findCheapestSolution n allRequirements1 = findCheapestSolution n allRequirements2.
Proof.
  intros H. unfold findCheapestSolution. apply find_ext_in. intros s _.
  rewrite !doesSolutionSatisfyAllClients_forallb.
  destruct (forallb (areRequirementsSatisfied s) (clients allRequirements2)) eqn:E2.
  - rewrite forallb_forall in *. intros c Hc. apply E2. now apply H.
  - apply not_true_is_false. intros E1. rewrite forallb_forall in E1.
    assert (forallb (areRequirementsSatisfied s) (clients allRequirements2) = true)
      as E by (rewrite forallb_forall; intros c Hc; apply E1; now apply H).
    congruence.
Qed.

Lemma same_clients_same_solution_witness :
  (forall client, In client (clients sameClientsFirst)
                  <-> In client (clients sameClientsSecond))
  /\ findCheapestSolution 2 sameClientsFirst = findCheapestSolution 2 sameClientsSecond
  /\ findCheapestSolution 2 sameClientsFirst = Some "11"%string.
Proof.
  assert (H : forall client, In client (clients sameClientsFirst)
                             <-> In client (clients sameClientsSecond)).
  { intros client. simpl. tauto. }
  split; [exact H |]. split; [| reflexivity].
  apply (same_clients_same_solution 2 sameClientsFirst sameClientsSecond H).
Defined.

(** ** The candidates of the search *)

Lemma fillPossibleSolutions_In (count : nat) (start k : N) :
  In k (fillPossibleSolutions count start) <-> (start <= k < start + N.of_nat count)%N.
Proof.
  revert start. induction count as [|count IH]; intros start; simpl.
  - lia.
  - rewrite IH. lia.
Qed.

Lemma fillPossibleSolutions_length (count : nat) (start : N) :
  List.length (fillPossibleSolutions count start) = count.
Proof.
  revert start. induction count as [|count IH]; intros start; simpl;
    [reflexivity | now rewrite IH].
Qed.

Lemma createPossibleSolutions_In (colors : nat) (k : N) :
  In k (createPossibleSolutions colors) <-> (k < N.of_nat (2 ^ colors))%N.
Proof.
  unfold createPossibleSolutions. rewrite fillPossibleSolutions_In. lia.
Qed.

Lemma rankedSolutions_In (colors : nat) (s : string) :
  In s (rankedSolutions colors)
  <-> exists k, (k < N.of_nat (2 ^ colors))%N
                /\ s = padPossibleSolution colors "0" (convertDecimalSolutionToBinary k).
Proof.
  unfold rankedSolutions. rewrite in_map_iff. split.
  - intros [b [Hs Hb]].
    rewrite sortPossibleSolutions_compare_by in Hb.
    apply (Permutation_in _ (Permutation_sym (sort_perm _ _))) in Hb.
    apply in_map_iff in Hb. destruct Hb as [k [Hk Hin]].
    exists k. split; [now apply createPossibleSolutions_In | congruence].
  - intros [k [Hk Hs]]. exists (convertDecimalSolutionToBinary k).
    split; [now symmetry |].
    rewrite sortPossibleSolutions_compare_by.
    apply (Permutation_in _ (sort_perm _ _)).
    apply in_map. now apply createPossibleSolutions_In.
Qed.

Lemma rankedSolutions_length (colors : nat) :
  List.length (rankedSolutions colors) = 2 ^ colors.
Proof.
  unfold rankedSolutions. rewrite length_map, sortPossibleSolutions_compare_by.
  rewrite <- (Permutation_length (sort_perm _ _)), length_map.
  apply fillPossibleSolutions_length.
Qed.

Lemma pos_to_string2_length (p : positive) (n : nat) :
  (Z.pos p < 2 ^ Z.of_nat n)%Z -> String.length (JS.pos_to_string2 p) <= n.
Proof.
  revert n. induction p as [p IH | p IH |]; intros n H;
    (destruct n as [|n]; [simpl in H; lia |]);
    rewrite Nat2Z.inj_succ, Z.pow_succ_r in H by lia; simpl.
  - rewrite length_append. simpl. specialize (IH n). lia.
  - rewrite length_append. simpl. specialize (IH n). lia.
  - lia.
Qed.

Lemma convertDecimalSolutionToBinary_length (k : N) (n : nat) :
  1 <= n -> (k < N.of_nat (2 ^ n))%N ->
  String.length (convertDecimalSolutionToBinary k) <= n.
Proof.
  intros Hn Hk. destruct k as [|p]; simpl; [exact Hn |].
  apply pos_to_string2_length.
  pose proof (Nat2Z.inj_pow 2 n) as E. simpl Z.of_nat in E. lia.
Qed.

Lemma repeat_zero_length (count : nat) :
  String.length (JS.repeat "0" count) = count.
Proof. induction count as [|count IH]; simpl; [reflexivity | now rewrite IH]. Qed.

Lemma repeat_zero_binary (count : nat) :
  all_binary (JS.repeat "0" count) = true.
Proof. induction count as [|count IH]; simpl; [reflexivity | exact IH]. Qed.

Lemma padPossibleSolution_length (n : nat) (s : string) :
  String.length s <= n -> String.length (padPossibleSolution n "0" s) = n.
Proof.
  intros H. unfold padPossibleSolution.
  destruct (String.length s <? n)%nat eqn:E.
  - rewrite length_append, repeat_zero_length. lia.
  - apply Nat.ltb_ge in E. lia.
Qed.

Lemma padPossibleSolution_binary (n : nat) (s : string) :
  all_binary (padPossibleSolution n "0" s) = all_binary s.
Proof.
  unfold padPossibleSolution. destruct (String.length s <? n)%nat; [| reflexivity].
  now rewrite all_binary_append, repeat_zero_binary.
Qed.

Lemma rankedSolutions_assignments (n : nat) (s : string) :
  1 <= n -> In s (rankedSolutions n) -> is_assignment n s.
Proof.
  intros Hn Hin. apply rankedSolutions_In in Hin. destruct Hin as [k [Hk ->]].
  split.
  - apply padPossibleSolution_length. now apply convertDecimalSolutionToBinary_length.
  - rewrite padPossibleSolution_binary.
    apply convertDecimalSolutionToBinary_binary.
Qed.

(** Every assignment is a candidate: it is the padded numeral of the number
    it denotes in base 2. *)

Lemma parse_digits_pos_append (t : string) :
  all_binary t = true ->
  forall p : positive,
    exists q : positive,
      JS.parse_digits 2 t (Z.pos p) = Z.pos q
      /\ (JS.pos_to_string2 p ++ t)%string = JS.pos_to_string2 q.
Proof.
  induction t as [|c t IH]; intros H p; simpl in *.
  - exists p. split; [reflexivity | apply append_nil_r].
  - apply andb_true_iff in H. destruct H as [Hc Ht].
    rewrite (binary_digit_value c Hc).
    destruct (Ascii.eqb c "1") eqn:E.
    + apply Ascii.eqb_eq in E. subst c.
      destruct (IH Ht (p~1)%positive) as [q [Hq Hs]]. exists q. split.
      * rewrite <- Hq. f_equal. lia.
      * rewrite <- Hs. simpl. now rewrite append_assoc.
    + assert (c = "0"%char) as ->.
      { unfold is_binary_digit in Hc. rewrite E, orb_false_r in Hc.
        now apply Ascii.eqb_eq. }
      destruct (IH Ht (p~0)%positive) as [q [Hq Hs]]. exists q. split.
      * rewrite <- Hq. f_equal. lia.
      * rewrite <- Hs. simpl. now rewrite append_assoc.
Qed.

Lemma parse_digits_bound (t : string) :
  all_binary t = true ->
  forall value : Z, (0 <= value)%Z ->
    (0 <= JS.parse_digits 2 t value < (value + 1) * 2 ^ Z.of_nat (String.length t))%Z.
Proof.
  induction t as [|c t IH]; intros H value Hv.
  - simpl. lia.
  - simpl in H. apply andb_true_iff in H. destruct H as [Hc Ht].
    cbn [JS.parse_digits String.length]. rewrite (binary_digit_value c Hc).
    rewrite Nat2Z.inj_succ, Z.pow_succ_r by lia.
    destruct (Ascii.eqb c "1").
    + specialize (IH Ht (value * 2 + 1)%Z). nia.
    + specialize (IH Ht (value * 2 + 0)%Z). nia.
Qed.

Lemma padPossibleSolution_succ (m : nat) (b : string) :
  String.length b <= m ->
  padPossibleSolution (S m) "0" b = String "0" (padPossibleSolution m "0" b).
Proof.
  intros H. unfold padPossibleSolution.
  destruct (String.length b <? S m)%nat eqn:E1; [| apply Nat.ltb_ge in E1; lia].
  destruct (String.length b <? m)%nat eqn:E2.
  - apply Nat.ltb_lt in E2.
    replace (S m - String.length b) with (S (m - String.length b)) by lia.
    reflexivity.
  - apply Nat.ltb_ge in E2.
    replace (S m - String.length b) with 1 by lia. reflexivity.
Qed.

(** The number an assignment denotes. *)
Lemma padPossibleSolution_encode (t : string) :
  all_binary t = true -> t <> ""%string ->
  let b := convertDecimalSolutionToBinary (Z.to_N (JS.parse_digits 2 t 0)) in
  String.length b <= String.length t
  /\ padPossibleSolution (String.length t) "0" b = t.
Proof.
  induction t as [|c t IH]; intros H Hne; [congruence |].
  simpl in H. apply andb_true_iff in H. destruct H as [Hc Ht].
  cbn [JS.parse_digits]. rewrite (binary_digit_value c Hc).
  destruct (Ascii.eqb c "1") eqn:E.
  - apply Ascii.eqb_eq in E. subst c.
    destruct (parse_digits_pos_append t Ht 1%positive) as [q [Hq Hs]].
    change (0 * 2 + 1)%Z with (Z.pos 1). rewrite Hq. simpl in Hs.
    cbn [Z.to_N convertDecimalSolutionToBinary JS.toString2]. rewrite <- Hs.
    split; [reflexivity |].
    unfold padPossibleSolution. now rewrite Nat.ltb_irrefl.
  - assert (c = "0"%char) as ->.
    { unfold is_binary_digit in Hc. rewrite E, orb_false_r in Hc.
      now apply Ascii.eqb_eq. }
    change (0 * 2 + 0)%Z with 0%Z.
    destruct t as [|c' t'].
    + split; reflexivity.
    + destruct (IH Ht) as [Hlen Hpad]; [discriminate |].
      cbv zeta in *. split.
      * cbn [String.length] in *. lia.
      * change (String.length (String "0" (String c' t')))
          with (S (String.length (String c' t'))).
        rewrite padPossibleSolution_succ by exact Hlen. now rewrite Hpad.
Qed.

Lemma assignments_rankedSolutions (n : nat) (t : string) :
  1 <= n -> is_assignment n t -> In t (rankedSolutions n).
Proof.
  intros Hn [Hlen Hbin]. apply rankedSolutions_In.
  exists (Z.to_N (JS.parse_digits 2 t 0)).
  assert (t <> ""%string) as Hne by (intros ->; simpl in Hlen; lia).
  split.
  - pose proof (parse_digits_bound t Hbin 0%Z ltac:(lia)) as B. rewrite Hlen in B.
    pose proof (Nat2Z.inj_pow 2 n) as E. simpl Z.of_nat in E. lia.
  - destruct (padPossibleSolution_encode t Hbin Hne) as [_ Hpad].
    rewrite Hlen in Hpad. now symmetry.
Qed.

(** ** Cost order of the candidates *)

Lemma characterCount_loop_step (c : ascii) (s target : string) (found : Z) :
  characterCount_loop (String c s) target found
  = characterCount_loop s target
      (if String.eqb (String c "") target then found + 1 else found)%Z.
Proof.
  cbn [characterCount_loop JS.strict_eq].
  now destruct (String.eqb (String c "") target).
Qed.

Lemma characterCount_loop_acc (s target : string) (found : Z) :
  characterCount_loop s target found = (found + characterCount s target)%Z.
Proof.
  unfold characterCount. revert found.
  induction s as [|c s IH]; intros found.
  - simpl. lia.
  - rewrite !characterCount_loop_step.
    rewrite IH, (IH (if String.eqb (String c "") target then _ else _)).
    destruct (String.eqb (String c "") target); lia.
Qed.

Lemma characterCount_append (s t target : string) :
  characterCount (s ++ t)%string target
  = (characterCount s target + characterCount t target)%Z.
Proof.
  unfold characterCount at 1 2. generalize 0%Z.
  induction s as [|c s IH]; intros found.
  - apply characterCount_loop_acc.
  - cbn [append]. rewrite !characterCount_loop_step. apply IH.
Qed.

Lemma characterCount_nonneg (s target : string) :
  (0 <= characterCount s target)%Z.
Proof.
  induction s as [|c s IH]; [unfold characterCount; simpl; lia |].
  change (String c s) with (String c "" ++ s)%string.
  rewrite characterCount_append.
  unfold characterCount at 1. rewrite characterCount_loop_step.
  cbn [characterCount_loop].
  destruct (String.eqb (String c "") target); lia.
Qed.

(** The counter of the module, asked for "1", computes the cost. *)
Lemma cost_characterCount (s : string) : characterCount s "1" = cost s.
Proof.
  induction s as [|c s IH]; [reflexivity |].
  change (String c s) with (String c "" ++ s)%string at 1.
  rewrite characterCount_append, IH.
  unfold cost. cbn [list_ascii_of_string count_occ].
  unfold characterCount. rewrite characterCount_loop_step.
  cbn [characterCount_loop].
  destruct (ascii_dec c "1") as [-> | Hne].
  - simpl String.eqb. lia.
  - replace (String.eqb (String c "") "1") with false; [lia |].
    symmetry. apply String.eqb_neq. congruence.
Qed.

Lemma cost_nonneg (s : string) : (0 <= cost s)%Z.
Proof. unfold cost. lia. Qed.

Lemma cost_repeat_zero (count : nat) : cost (JS.repeat "0" count) = 0%Z.
Proof.
  rewrite <- cost_characterCount.
  induction count as [|count IH]; [reflexivity |].
  change (JS.repeat "0" (S count)) with ("0" ++ JS.repeat "0" count)%string.
  rewrite characterCount_append, IH. reflexivity.
Qed.

Lemma cost_padPossibleSolution (n : nat) (s : string) :
  cost (padPossibleSolution n "0" s) = cost s.
Proof.
  unfold padPossibleSolution. destruct (String.length s <? n)%nat; [| reflexivity].
  rewrite <- cost_characterCount, characterCount_append, !cost_characterCount.
  rewrite cost_repeat_zero. lia.
Qed.

Lemma StronglySorted_map {A B : Type} (f : A -> B) (R : B -> B -> Prop)
    (l : list A) :
  StronglySorted (fun a b => R (f a) (f b)) l -> StronglySorted R (map f l).
Proof.
  induction 1 as [|a l Hl IH Ha]; simpl; constructor; [exact IH |].
  rewrite Forall_map. exact Ha.
Qed.

Lemma rankedSolutions_sorted (n : nat) :
  StronglySorted (ascending cost) (rankedSolutions n).
Proof.
  unfold rankedSolutions. apply StronglySorted_map.
  rewrite sortPossibleSolutions_compare_by.
  eapply StronglySorted_ind
    with (P := StronglySorted
                 (fun a b => ascending cost (padPossibleSolution n "0" a)
                                            (padPossibleSolution n "0" b)));
    [constructor | | apply (sort_sorted (fun s => characterCount s "1"))].
  intros a l _ IH Ha. constructor; [exact IH |].
  eapply Forall_impl; [| exact Ha].
  intros b Hab. unfold ascending in *.
  now rewrite !cost_padPossibleSolution, <- !cost_characterCount.
Qed.

(** The first element of a list in ascending order that passes a test is
    one of the cheapest that pass it. *)
Lemma find_sorted_minimal {A : Type} (key : A -> Z) (p : A -> bool)
    (l : list A) (s : A) :
  StronglySorted (ascending key) l ->
  JS.find p l = Some s ->
  forall t, In t l -> p t = true -> (key s <= key t)%Z.
Proof.
  unfold JS.find. induction 1 as [|a l Hl IH Ha]; simpl; [discriminate |].
  intros Hf t Hin Hp. destruct (p a) eqn:E.
  - injection Hf as <-. destruct Hin as [<- | Hin]; [lia |].
    rewrite Forall_forall in Ha. now apply Ha.
  - destruct Hin as [<- | Hin]; [congruence |]. now apply IH.
Qed.

Lemma find_some_iff {A : Type} (p : A -> bool) (l : list A) :
  (exists t, In t l /\ p t = true) <-> exists s, JS.find p l = Some s.
Proof.
  unfold JS.find. split.
  - intros [t [Hin Hp]]. destruct (find p l) as [s|] eqn:E; [now exists s |].
    pose proof (find_none p l E t Hin). congruence.
  - intros [s Hs]. exists s. now apply find_some in Hs.
Qed.

(** ** The search *)

Lemma findCheapestSolution_candidate (n : nat) (allRequirements : RequirementSet)
    (s : string) :
  findCheapestSolution n allRequirements = Some s ->
  In s (rankedSolutions n) /\ satisfies_all allRequirements s.
Proof.
  unfold findCheapestSolution, JS.find. intros H. apply find_some in H.
  destruct H as [Hin Hp]. split; [exact Hin |].
  now apply doesSolutionSatisfyAllClients_true.
Qed.

(** C9. From one color on, every candidate the search examines, and so
    every solution it returns, is a string of exactly [n] binary digits.
    Without colors the only candidate is "0": a solution then has one
    digit, not none. *)
Theorem candidates_have_width_n :
  (forall n : nat, 1 <= n ->
     (forall s, In s (rankedSolutions n) ->
        String.length s = n /\ all_binary s = true)
     /\ forall allRequirements s,
          findCheapestSolution n allRequirements = Some s ->
          String.length s = n /\ all_binary s = true)
  /\ rankedSolutions 0 = ["0"%string]
  /\ findCheapestSolution 0 [] = Some "0"%string
  /\ forall allRequirements s,
       findCheapestSolution 0 allRequirements = Some s ->
       s = "0"%string /\ String.length s = 1 /\ String.length s <> 0.
Proof.
  split; [| split; [reflexivity | split; [reflexivity |]]].
  - intros n Hn. split.
    + intros s Hin. now apply rankedSolutions_assignments.
    + intros allRequirements s H. apply findCheapestSolution_candidate in H.
      destruct H as [Hin _]. now apply rankedSolutions_assignments.
  - intros allRequirements s H. apply findCheapestSolution_candidate in H.
    destruct H as [[<- | []] _]. repeat split. discriminate.
Qed.

Lemma candidates_have_width_n_witness :
  1 <= 3
  /\ (forall s, In s (rankedSolutions 3) -> String.length s = 3 /\ all_binary s = true)
  /\ rankedSolutions 3
     = ["000"; "001"; "010"; "100"; "011"; "101"; "110"; "111"]%string.
Proof.
  split; [lia |]. split; [| reflexivity].
  apply (proj1 candidates_have_width_n 3). lia.
Defined.

(** C1. The search returns a solution exactly when one of the [2 ^ n]
    candidates satisfies every client; the solution returned satisfies
    every client and no candidate, and no assignment over [n] colors, that
    satisfies every client is cheaper, the cost being the number of digits
    "1"; when no candidate satisfies every client the search returns
    [undefined].  From one color on the candidates are exactly the
    assignments over [n] colors; without colors "0" is the only one. *)
Theorem findCheapestSolution_cheapest (n : nat) (allRequirements : RequirementSet) :
  ((exists s, findCheapestSolution n allRequirements = Some s)
   <-> exists t, In t (rankedSolutions n) /\ satisfies_all allRequirements t)
  /\ (forall s, findCheapestSolution n allRequirements = Some s ->
        In s (rankedSolutions n)
        /\ satisfies_all allRequirements s
        /\ forall t, In t (rankedSolutions n) \/ is_assignment n t ->
                     satisfies_all allRequirements t -> (cost s <= cost t)%Z)
  /\ ((forall t, In t (rankedSolutions n) -> ~ satisfies_all allRequirements t) ->
      findCheapestSolution n allRequirements = None)
  /\ List.length (rankedSolutions n) = 2 ^ n
  /\ (1 <= n -> forall t, In t (rankedSolutions n) <-> is_assignment n t)
  /\ (n = 0 -> forall t, In t (rankedSolutions n) <-> t = "0"%string).
Proof.
  split; [| split; [| split; [| split; [| split]]]].
  - unfold findCheapestSolution. rewrite <- find_some_iff.
    split; intros [t [Hin Hp]]; exists t; (split; [exact Hin |]);
      now apply doesSolutionSatisfyAllClients_true.
  - intros s H. pose proof (findCheapestSolution_candidate _ _ _ H) as [Hin Hs].
    split; [exact Hin |]. split; [exact Hs |].
    intros t Ht Hsat.
    assert (In t (rankedSolutions n) -> (cost s <= cost t)%Z) as Hmin.
    { intros Hc.
      apply (find_sorted_minimal cost
               (doesSolutionSatisfyAllClients allRequirements)
               (rankedSolutions n) s (rankedSolutions_sorted n) H t Hc).
      now apply doesSolutionSatisfyAllClients_true. }
    destruct Ht as [Hc | Ha]; [now apply Hmin |].
    destruct n as [|n].
    + destruct Hin as [<- | []]. apply (cost_nonneg t).
    + apply Hmin. apply assignments_rankedSolutions; [lia | exact Ha].
  - intros H. unfold findCheapestSolution. apply find_none_all_false.
    intros t Hin. apply not_true_is_false. intros Hp.
    apply (H t Hin). now apply doesSolutionSatisfyAllClients_true.
  - apply rankedSolutions_length.
  - intros Hn t. split.
    + now apply rankedSolutions_assignments.
    + now apply assignments_rankedSolutions.
  - intros -> t. simpl. split; [intros [<- | []]; reflexivity | intros ->; now left].
Qed.

(** ** Printing the solution *)

Lemma transformSolution_loop_acc (solution transformed : string) :
  transformSolution_loop solution transformed
  = (transformed ++ transformSolution_loop solution "")%string.
Proof.
  revert transformed. induction solution as [|c solution IH]; intros transformed.
  - simpl. now rewrite append_nil_r.
  - cbn [transformSolution_loop].
    rewrite IH, (IH (append "" _)). cbn [append]. now rewrite append_assoc.
Qed.

Lemma render_spec_binary (solution : string) :
  all_binary solution = true ->
  render_spec solution = Some (transformSolution (Some solution)).
Proof.
  unfold transformSolution. induction solution as [|c solution IH]; intros H.
  - reflexivity.
  - simpl in H. apply andb_true_iff in H. destruct H as [Hc Hs].
    cbn [render_spec transformSolution_loop]. rewrite (IH Hs).
    rewrite (transformSolution_loop_acc solution (append "" _)).
    unfold is_binary_digit in Hc. apply orb_true_iff in Hc.
    destruct Hc as [Hc | Hc]; apply Ascii.eqb_eq in Hc; subst c; reflexivity.
Qed.

(** C8. The last step of the optimizer prints a solution digit by digit,
    "G" for "0" and "M" for "1", each letter followed by a space, so that
    "00001" is printed "G G G G M "; it prints "No solution exists" when
    there is no solution.  Every solution the search returns is printed
    this way. *)
Theorem transformSolution_letters :
  (forall solution rendering : string,
     render_spec solution = Some rendering ->
     transformSolution (Some solution) = rendering)
  /\ (forall n allRequirements solution,
        findCheapestSolution n allRequirements = Some solution ->
        render_spec solution = Some (transformSolution (Some solution)))
  /\ transformSolution (Some "00001"%string) = "G G G G M "%string
  /\ transformSolution None = "No solution exists"%string.
Proof.
  split; [| split; [| split; reflexivity]].
  - intros solution rendering H.
    assert (all_binary solution = true) as Hb.
    { revert rendering H. induction solution as [|c solution IH]; intros r H.
      - reflexivity.
      - simpl in H |- *. unfold letter_spec, is_binary_digit in *.
        destruct (Ascii.eqb c "0"), (Ascii.eqb c "1"); simpl;
          try discriminate;
          (destruct (render_spec solution) as [r'|]; [| discriminate]);
          now apply (IH r'). }
    rewrite (render_spec_binary solution Hb) in H. congruence.
  - intros n allRequirements solution H. apply render_spec_binary.
    apply findCheapestSolution_candidate in H. destruct H as [Hin _].
    destruct n as [|n].
    + destruct Hin as [<- | []]. reflexivity.
    + apply (rankedSolutions_assignments (S n)); [lia | exact Hin].
Qed.

Lemma transformSolution_letters_witness :
  render_spec "00001" = Some "G G G G M "%string
  /\ transformSolution (Some "00001"%string) = "G G G G M "%string.
Proof.
  split; [reflexivity |].
  apply (proj1 transformSolution_letters "00001"%string). reflexivity.
Defined.

(** The array [optimizer] hands to [parseFileInput] always has a first
    line: splitting a text gives at least one piece. *)
Lemma split_not_empty (separator : ascii -> bool) (s : string) :
  JS.split separator s <> [].
Proof.
  destruct s as [|c s]; simpl; [discriminate |].
  destruct (separator c); [discriminate |].
  destruct (JS.split separator s); discriminate.
Qed.

Lemma readFileContents_not_empty (readFileSync : string -> option string)
    (fileName : string) (fileLines : list string) :
  readFileContents readFileSync fileName = JS.Return fileLines -> fileLines <> [].
Proof.
  unfold readFileContents. destruct (readFileSync fileName); [| discriminate].
  intros H. injection H as <-. apply split_not_empty.
Qed.

(** What [optimizer] returns is the printed form of what the search finds
    for the problem read from the file. *)
Lemma optimizer_returns_transformSolution (readFileSync : string -> option string)
    (argv : list string) (output : string) :
  optimizer readFileSync argv = JS.Return output ->
  exists fileName text cheapestSolution,
    hd_error argv = Some fileName
    /\ readFileSync fileName = Some text
    /\ findCheapestSolution_call
         (JS.parseInt (Some (first_line text)) 10)
         (allRequirements (fst (parseFileInput (JS.split (Ascii.eqb "010") text))))
       = JS.Return cheapestSolution
    /\ output = transformSolution cheapestSolution.
Proof.
  unfold optimizer, readFileContents. destruct argv as [|fileName argv]; [discriminate |].
  destruct (readFileSync fileName) as [text|] eqn:R; [| discriminate].
  intros H.
  destruct (JS.split (Ascii.eqb "010") text) as [|first lines] eqn:E;
    [now apply split_not_empty in E |].
  unfold parseFileInput in H. cbn [JS.shift colors allRequirements] in H.
  destruct (findCheapestSolution_call (JS.parseInt (Some first) 10)
              (parseFileInput_loop lines [])) as [cheapestSolution | e] eqn:C;
    [| discriminate].
  injection H as <-. exists fileName, text, cheapestSolution.
  unfold first_line, parseFileInput. rewrite E.
  cbn [JS.shift colors allRequirements fst hd]. repeat split; assumption.
Qed.

(** ** The argument of [parseFileInput] *)

(** C10. [parseFileInput] changes the array it is given: its first element,
    the line of the color count, is removed, which leaves the array one
    element shorter, holding the client lines only, and so not as it was. *)
Theorem parseFileInput_shifts_fileLines (colorCountLine : string)
    (clientLines : list string) :
  snd (parseFileInput (colorCountLine :: clientLines)) = clientLines
  /\ S (List.length (snd (parseFileInput (colorCountLine :: clientLines))))
     = List.length (colorCountLine :: clientLines)
  /\ snd (parseFileInput (colorCountLine :: clientLines))
     <> colorCountLine :: clientLines
  /\ colors (fst (parseFileInput (colorCountLine :: clientLines)))
     = JS.parseInt (Some colorCountLine) 10.
Proof.
  unfold parseFileInput. simpl. repeat split.
  intros H. apply (f_equal (@List.length string)) in H. simpl in H. lia.
Qed.

(** An array without lines stays as it is: there is nothing to remove. *)
Lemma parseFileInput_no_lines :
  parseFileInput [] = ({| colors := JS.NaN; allRequirements := [] |}, []).
Proof. reflexivity. Qed.


(** * Further properties of the module *)

(** ** The enumerator *)

Lemma fillPossibleSolutions_seq (count : nat) (start : N) :
  fillPossibleSolutions count start = map N.of_nat (seq (N.to_nat start) count).
Proof.
  revert start. induction count as [|count IH]; intros start; simpl.
  - reflexivity.
  - rewrite IH, N2Nat.id, N2Nat.inj_succ. reflexivity.
Qed.

(** X1. The enumerator lists the numbers from 0 to [2 ^ colors - 1] in
    increasing order. *)
Theorem createPossibleSolutions_seq (colors : nat) :
  createPossibleSolutions colors = map N.of_nat (seq 0 (2 ^ colors)).
Proof.
  unfold createPossibleSolutions. now rewrite fillPossibleSolutions_seq.
Qed.

(** ** The width padder *)

Lemma repeat_length (c : string) (count : nat) :
  String.length (JS.repeat c count) = count * String.length c.
Proof.
  induction count as [|count IH]; simpl; [reflexivity |].
  rewrite length_append, IH. lia.
Qed.

(** X2. With a padding string of one unit the result has the required
    length or the length of the input, whichever is greater, and ends with
    the input: nothing is cut off. *)
Theorem padPossibleSolution_max_length (requiredLength : nat)
    (paddingCharacter possibleSolution : string) :
  String.length paddingCharacter = 1 ->
  String.length (padPossibleSolution requiredLength paddingCharacter possibleSolution)
  = Nat.max requiredLength (String.length possibleSolution)
  /\ exists padding,
       padPossibleSolution requiredLength paddingCharacter possibleSolution
       = (padding ++ possibleSolution)%string.
Proof.
  intros H1. unfold padPossibleSolution.
  destruct (String.length possibleSolution <? requiredLength)%nat eqn:E.
  - apply Nat.ltb_lt in E. split.
    + rewrite length_append, repeat_length, H1. lia.
    + eexists. reflexivity.
  - apply Nat.ltb_ge in E. split; [lia | now exists ""%string].
Qed.

Lemma padPossibleSolution_max_length_witness :
  String.length "0" = 1
  /\ String.length (padPossibleSolution 3 "0" "1000") = Nat.max 3 (String.length "1000")
  /\ String.length (padPossibleSolution 3 "0" "1") = Nat.max 3 (String.length "1").
Proof.
  split; [reflexivity |]. split.
  - apply (padPossibleSolution_max_length 3 "0" "1000"). reflexivity.
  - apply (padPossibleSolution_max_length 3 "0" "1"). reflexivity.
Defined.

(** X3. Padding twice is padding once, whatever the padding string. *)
Theorem padPossibleSolution_idempotent (requiredLength : nat)
    (paddingCharacter possibleSolution : string) :
  padPossibleSolution requiredLength paddingCharacter
    (padPossibleSolution requiredLength paddingCharacter possibleSolution)
  = padPossibleSolution requiredLength paddingCharacter possibleSolution.
Proof.
  destruct (String.length possibleSolution <? requiredLength)%nat eqn:E.
  - assert (padPossibleSolution requiredLength paddingCharacter possibleSolution
            = (JS.repeat paddingCharacter
                 (requiredLength - String.length possibleSolution)
               ++ possibleSolution)%string) as Hp
      by (unfold padPossibleSolution; now rewrite E).
    rewrite Hp. apply Nat.ltb_lt in E. unfold padPossibleSolution.
    rewrite length_append, repeat_length.
    destruct (String.length paddingCharacter) as [|m] eqn:L.
    + destruct paddingCharacter; [| discriminate].
      assert (forall k, JS.repeat "" k = ""%string) as R
        by (induction k as [|k IHk]; simpl; [reflexivity | exact IHk]).
      rewrite !R. simpl. rewrite Nat.mul_0_r. simpl.
      apply Nat.ltb_lt in E. now rewrite E.
    + destruct (_ <? requiredLength)%nat eqn:E2; [| reflexivity].
      apply Nat.ltb_lt in E2. nia.
  - assert (padPossibleSolution requiredLength paddingCharacter possibleSolution
            = possibleSolution) as Hp
      by (unfold padPossibleSolution; now rewrite E).
    rewrite Hp. exact Hp.
Qed.

(** ** The counter *)

(** What the loop compares with is one character of the string; a string
    to count with no unit, or with more than the two units a character can
    take, is never found. *)
Lemma characterCount_never_found (s characterToCount : string) :
  String.length characterToCount = 0 \/ 2 < String.length characterToCount ->
  characterCount s characterToCount = 0%Z.
Proof.
  intros H. induction s as [|c s IH]; [reflexivity |].
  change (String c s) with (String c "" ++ s)%string.
  rewrite characterCount_append, IH.
  unfold characterCount. rewrite characterCount_loop_step.
  cbn [characterCount_loop].
  destruct (String.eqb (String c "") characterToCount) eqn:E; [| reflexivity].
  apply String.eqb_eq in E. subst characterToCount. simpl in H. lia.
Qed.

(** X4. The count lies between 0 and the length of the string, and it is 0
    when the string to count has no unit or more than two. *)
Theorem characterCount_bounds (s characterToCount : string) :
  (0 <= characterCount s characterToCount <= Z.of_nat (String.length s))%Z
  /\ (String.length characterToCount = 0 \/ 2 < String.length characterToCount ->
      characterCount s characterToCount = 0%Z).
Proof.
  split; [| apply characterCount_never_found].
  induction s as [|c s IH].
  - unfold characterCount. simpl. lia.
  - change (String c s) with (String c "" ++ s)%string.
    rewrite characterCount_append.
    unfold characterCount at 1 3. rewrite characterCount_loop_step.
    cbn [characterCount_loop append String.length].
    destruct (String.eqb (String c "") characterToCount); lia.
Qed.

Lemma characterCount_bounds_witness :
  (String.length "101" = 0 \/ 2 < String.length "101")
  /\ characterCount "1010101" "101" = 0%Z.
Proof.
  assert (H : String.length "101" = 0 \/ 2 < String.length "101")
    by (right; simpl; lia).
  split; [exact H |]. apply (proj2 (characterCount_bounds "1010101" "101") H).
Defined.

(** X5. Sorting by a string with no unit, or with more than two, leaves the
    list as it is: every count is 0, and a stable sort moves nothing. *)
Theorem sort_by_non_character_unchanged (characterToSortBy : string)
    (encodings : list string) :
  String.length characterToSortBy = 0 \/ 2 < String.length characterToSortBy ->
  JS.sort (sortPossibleSolutions characterToSortBy) encodings = encodings.
Proof.
  intros H. induction encodings as [|x l IH]; simpl; [reflexivity |].
  rewrite IH. destruct l as [|y l]; simpl; [reflexivity |].
  unfold sortPossibleSolutions.
  rewrite !(characterCount_never_found _ characterToSortBy H). reflexivity.
Qed.

Lemma sort_by_non_character_unchanged_witness :
  (String.length "" = 0 \/ 2 < String.length "")
  /\ JS.sort (sortPossibleSolutions "") ["111"; "0"; "10"]%string
     = ["111"; "0"; "10"]%string.
Proof.
  assert (H : String.length "" = 0 \/ 2 < String.length "") by (left; reflexivity).
  split; [exact H |].
  apply (sort_by_non_character_unchanged "" ["111"; "0"; "10"]%string H).
Defined.

(** ** More on the cost ranker *)

(** X6. The ranking is the only one there is: a list in ascending order of
    the count whose runs of equal count are those of the input is the
    result of the sort. *)
Theorem cost_ranker_result_unique (target : string) (encodings ranked : list string) :
  StronglySorted (ascending (fun s => characterCount s target)) ranked ->
  (forall k, run_of (fun s => characterCount s target) k ranked
             = run_of (fun s => characterCount s target) k encodings) ->
  ranked = JS.sort (sortPossibleSolutions target) encodings.
Proof.
  intros S E. rewrite sortPossibleSolutions_compare_by.
  now apply stable_sort_unique.
Qed.

Lemma cost_ranker_result_unique_witness :
  ["0"; "1"; "11"]%string = JS.sort (sortPossibleSolutions "1") ["11"; "0"; "1"]%string.
Proof.
  apply (cost_ranker_result_unique "1" ["11"; "0"; "1"]%string ["0"; "1"; "11"]%string).
  - repeat constructor; unfold ascending; vm_compute; discriminate.
  - intros k. unfold run_of. cbn [filter].
    change (characterCount "0" "1") with 0%Z.
    change (characterCount "1" "1") with 1%Z.
    change (characterCount "11" "1") with 2%Z.
    destruct (0 =? k)%Z eqn:E0, (1 =? k)%Z eqn:E1, (2 =? k)%Z eqn:E2;
      try reflexivity;
      rewrite ?Z.eqb_eq in *; lia.
Defined.

(** X7. A list already in ascending order of the count is left as it is;
    so ranking twice is ranking once. *)
Theorem cost_ranker_sorted_unchanged (target : string) (encodings : list string) :
  (StronglySorted (ascending (fun s => characterCount s target)) encodings ->
   JS.sort (sortPossibleSolutions target) encodings = encodings)
  /\ JS.sort (sortPossibleSolutions target)
       (JS.sort (sortPossibleSolutions target) encodings)
     = JS.sort (sortPossibleSolutions target) encodings.
Proof.
  rewrite sortPossibleSolutions_compare_by. split.
  - intros S. symmetry. now apply stable_sort_unique.
  - symmetry. apply stable_sort_unique; [apply sort_sorted | reflexivity].
Qed.

Lemma cost_ranker_sorted_unchanged_witness :
  StronglySorted (ascending (fun s => characterCount s "1")) ["100"; "10"; "11"]%string
  /\ JS.sort (sortPossibleSolutions "1") ["100"; "10"; "11"]%string
     = ["100"; "10"; "11"]%string.
Proof.
  assert (S : StronglySorted (ascending (fun s => characterCount s "1"))
                ["100"; "10"; "11"]%string)
    by (repeat constructor; unfold ascending; vm_compute; discriminate).
  split; [exact S |].
  apply (proj1 (cost_ranker_sorted_unchanged "1" ["100"; "10"; "11"]%string) S).
Defined.

(** ** Encoding, padding and reading back *)

Lemma binary_value_repeat_zero (count : nat) (s : string) :
  binary_value (JS.repeat "0" count ++ s) = binary_value s.
Proof.
  unfold binary_value. rewrite parse_digits_append by apply repeat_zero_binary.
  f_equal. induction count as [|count IH]; simpl; [reflexivity | exact IH].
Qed.

Lemma binary_value_padPossibleSolution (n : nat) (s : string) :
  binary_value (padPossibleSolution n "0" s) = binary_value s.
Proof.
  unfold padPossibleSolution. destruct (String.length s <? n)%nat; [| reflexivity].
  apply binary_value_repeat_zero.
Qed.

Lemma binary_value_encode (k : N) :
  binary_value (convertDecimalSolutionToBinary k) = Z.of_N k.
Proof.
  destruct k as [|p]; [reflexivity |]. apply parse_digits_pos.
Qed.

Lemma padPossibleSolution_not_empty (n : nat) (s : string) :
  s <> ""%string -> padPossibleSolution n "0" s <> ""%string.
Proof.
  intros Hs H. apply (f_equal String.length) in H.
  unfold padPossibleSolution in H.
  destruct (String.length s <? n)%nat.
  - rewrite length_append in H. destruct s; [congruence | simpl in H; lia].
  - destruct s; [congruence | discriminate].
Qed.

(** X8. Padding does not change the number encoded: reading a padded
    numeral back in base 2 gives the number that was encoded, for every
    width. *)
Theorem padded_encoding_roundtrip (width : nat) (k : N) :
  parseBinary (padPossibleSolution width "0" (convertDecimalSolutionToBinary k))
  = JS.Int (Z.of_N k).
Proof.
  rewrite parseBinary_digits.
  - fold (binary_value
            (padPossibleSolution width "0" (convertDecimalSolutionToBinary k))).
    now rewrite binary_value_padPossibleSolution, binary_value_encode.
  - rewrite padPossibleSolution_binary. apply convertDecimalSolutionToBinary_binary.
  - apply padPossibleSolution_not_empty.
    destruct k as [|p]; [discriminate |].
    simpl. destruct (pos_to_string2_head p) as [r ->]. discriminate.
Qed.

(** ** The order of the scan *)

Section SortLexicographic.

Context {A : Type} (key val : A -> Z).

Let lex (a b : A) : Prop :=
  (key a < key b)%Z \/ (key a = key b /\ val a < val b)%Z.

(** Inserting an element that is smaller than all the others in the second
    component keeps the order by key first and second component next. *)
Lemma sort_insert_lex (x : A) (m : list A) :
  StronglySorted lex m ->
  Forall (fun y => (val x < val y)%Z) m ->
  StronglySorted lex (JS.sort_insert (compare_by key) x m).
Proof.
  induction 1 as [|y m Hm IH Hy]; intros Hx; simpl.
  - repeat constructor.
  - apply Forall_cons_iff in Hx. destruct Hx as [Hxy Hxm].
    unfold compare_by at 1.
    destruct (key x - key y <=? 0)%Z eqn:E.
    + apply Z.leb_le in E. constructor; [now constructor |].
      constructor; [unfold lex; lia |].
      rewrite Forall_forall in *. intros z Hz.
      specialize (Hy z Hz). specialize (Hxm z Hz). unfold lex in *. lia.
    + apply Z.leb_gt in E. constructor; [now apply IH |].
      eapply Permutation_Forall; [apply sort_insert_perm |].
      constructor; [unfold lex; lia | exact Hy].
Qed.

Lemma sort_lex (l : list A) :
  StronglySorted (fun a b => (val a < val b)%Z) l ->
  StronglySorted lex (JS.sort (compare_by key) l).
Proof.
  induction 1 as [|x l Hl IH Hx]; simpl; [constructor |].
  apply sort_insert_lex; [exact IH |].
  eapply Permutation_Forall; [apply sort_perm | exact Hx].
Qed.

End SortLexicographic.

Lemma StronglySorted_impl {A : Type} (R R' : A -> A -> Prop) (l : list A) :
  (forall a b, In a l -> In b l -> R a b -> R' a b) ->
  StronglySorted R l -> StronglySorted R' l.
Proof.
  intros H S. induction S as [|a l Hl IH Ha]; constructor.
  - apply IH. intros x y Hx Hy. apply H; now right.
  - rewrite Forall_forall in *. intros b Hb.
    apply H; [now left | now right | now apply Ha].
Qed.

Lemma fillPossibleSolutions_increasing (count : nat) (start : N) :
  StronglySorted N.lt (fillPossibleSolutions count start).
Proof.
  revert start. induction count as [|count IH]; intros start; simpl; constructor.
  - apply IH.
  - rewrite Forall_forall. intros k Hk. apply fillPossibleSolutions_In in Hk. lia.
Qed.

Lemma rankedSolutions_scan_order (n : nat) :
  StronglySorted scanned_before (rankedSolutions n).
Proof.
  unfold rankedSolutions. apply StronglySorted_map.
  rewrite sortPossibleSolutions_compare_by.
  eapply StronglySorted_impl;
    [| apply (sort_lex (fun s => characterCount s "1") binary_value)].
  - intros a b _ _ H. unfold scanned_before.
    rewrite !cost_padPossibleSolution, !binary_value_padPossibleSolution.
    rewrite <- !cost_characterCount. exact H.
  - apply StronglySorted_map.
    eapply StronglySorted_impl; [| apply fillPossibleSolutions_increasing].
    intros a b _ _ H. rewrite !binary_value_encode. lia.
Qed.

Lemma find_sorted_first {A : Type} (R : A -> A -> Prop) (p : A -> bool)
    (l : list A) (s : A) :
  StronglySorted R l ->
  JS.find p l = Some s ->
  forall t, In t l -> p t = true -> t = s \/ R s t.
Proof.
  unfold JS.find. induction 1 as [|a l Hl IH Ha]; simpl; [discriminate |].
  intros Hf t Hin Hp. destruct (p a) eqn:E.
  - injection Hf as <-. destruct Hin as [<- | Hin]; [now left | right].
    rewrite Forall_forall in Ha. now apply Ha.
  - destruct Hin as [<- | Hin]; [congruence |]. now apply IH.
Qed.

(** X9. The candidates are scanned by cost first and, at equal cost, by the
    number they denote in base 2; no candidate is scanned twice. *)
Theorem rankedSolutions_order_and_distinct (n : nat) :
  StronglySorted scanned_before (rankedSolutions n)
  /\ NoDup (rankedSolutions n).
Proof.
  pose proof (rankedSolutions_scan_order n) as S. split; [exact S |].
  induction S as [|a l Hl IH Ha]; constructor; [| exact IH].
  intros Hin. rewrite Forall_forall in Ha. specialize (Ha a Hin).
  unfold scanned_before in Ha. lia.
Qed.

(** X10. Ties are broken by the number denoted: every other candidate that
    satisfies every client costs more than the solution returned, or costs
    the same and denotes a greater number in base 2. *)
Theorem findCheapestSolution_tie_break (n : nat) (allRequirements : RequirementSet)
    (s t : string) :
  findCheapestSolution n allRequirements = Some s ->
  In t (rankedSolutions n) ->
  satisfies_all allRequirements t ->
  t = s \/ scanned_before s t.
Proof.
  intros Hs Hin Hsat.
  apply (find_sorted_first scanned_before
           (doesSolutionSatisfyAllClients allRequirements)
           (rankedSolutions n) s (rankedSolutions_scan_order n) Hs t Hin).
  now apply doesSolutionSatisfyAllClients_true.
Qed.

Lemma findCheapestSolution_tie_break_witness :
  findCheapestSolution 2 [client_of 0 [(0, "1"); (1, "1")]%Z] = Some "01"%string
  /\ ("10"%string = "01"%string \/ scanned_before "01" "10").
Proof.
  split; [reflexivity |].
  apply (findCheapestSolution_tie_break 2 [client_of 0 [(0, "1"); (1, "1")]%Z]
           "01" "10").
  - reflexivity.
  - simpl. tauto.
  - apply doesSolutionSatisfyAllClients_true. reflexivity.
Defined.

(** ** What the search returns *)

Lemma repeat_zero_snoc (count : nat) :
  (JS.repeat "0" count ++ "0")%string = JS.repeat "0" (S count).
Proof.
  induction count as [|count IH]; [reflexivity |].
  change (JS.repeat "0" (S count)) with (String "0" (JS.repeat "0" count)).
  cbn [append]. rewrite IH. reflexivity.
Qed.

Lemma padPossibleSolution_zero (n : nat) :
  padPossibleSolution n "0" "0" = all_gloss n.
Proof.
  unfold padPossibleSolution, all_gloss. simpl String.length.
  destruct (1 <? n)%nat eqn:E.
  - apply Nat.ltb_lt in E. rewrite repeat_zero_snoc.
    f_equal. lia.
  - apply Nat.ltb_ge in E. replace (Nat.max n 1) with 1 by lia. reflexivity.
Qed.

Lemma all_gloss_candidate (n : nat) : In (all_gloss n) (rankedSolutions n).
Proof.
  apply rankedSolutions_In. exists 0%N. split.
  - pose proof (Nat.pow_nonzero 2 n). lia.
  - symmetry. apply padPossibleSolution_zero.
Qed.

Lemma rankedSolutions_value_nonneg (n : nat) (s : string) :
  In s (rankedSolutions n) -> (0 <= cost s /\ 0 <= binary_value s)%Z.
Proof.
  intros Hin. split; [apply cost_nonneg |].
  apply rankedSolutions_In in Hin. destruct Hin as [k [_ ->]].
  rewrite binary_value_padPossibleSolution, binary_value_encode. lia.
Qed.

(** X11. When the candidate without matte paint satisfies every client it
    is the solution; so it is when there is no client at all. *)
Theorem all_gloss_is_returned (n : nat) (allRequirements : RequirementSet) :
  satisfies_all allRequirements (all_gloss n) ->
  findCheapestSolution n allRequirements = Some (all_gloss n).
Proof.
  intros Hsat.
  destruct (findCheapestSolution n allRequirements) as [s|] eqn:E.
  - pose proof (findCheapestSolution_candidate _ _ _ E) as [Hin _].
    destruct (find_sorted_first scanned_before
                (doesSolutionSatisfyAllClients allRequirements)
                (rankedSolutions n) s (rankedSolutions_scan_order n) E
                (all_gloss n) (all_gloss_candidate n)) as [<- | Hlt].
    + now apply doesSolutionSatisfyAllClients_true.
    + reflexivity.
    + exfalso. pose proof (rankedSolutions_value_nonneg n s Hin) as [Hc Hv].
      unfold scanned_before, all_gloss in Hlt.
      rewrite cost_repeat_zero in Hlt.
      rewrite <- (append_nil_r (JS.repeat "0" (Nat.max n 1))) in Hlt.
      rewrite binary_value_repeat_zero in Hlt.
      change (binary_value "") with 0%Z in Hlt. lia.
  - exfalso. unfold findCheapestSolution, JS.find in E.
    pose proof (find_none _ _ E (all_gloss n) (all_gloss_candidate n)) as F.
    apply doesSolutionSatisfyAllClients_true in Hsat. congruence.
Qed.

Lemma all_gloss_is_returned_witness :
  satisfies_all [] (all_gloss 4)
  /\ findCheapestSolution 4 [] = Some "0000"%string.
Proof.
  assert (H : satisfies_all [] (all_gloss 4)) by (intros client []).
  split; [exact H |]. apply (all_gloss_is_returned 4 [] H).
Defined.

(** X12. More clients never make the solution cheaper: if the search finds
    a solution for a set of clients, it finds one for any part of them, at
    no greater cost. *)
Theorem fewer_clients_no_dearer (n : nat) (fewer more : RequirementSet)
    (solution : string) :
  (forall client, In client (clients fewer) -> In client (clients more)) ->
  findCheapestSolution n more = Some solution ->
  exists cheaper,
    findCheapestSolution n fewer = Some cheaper
    /\ (cost cheaper <= cost solution)%Z.
Proof.
  intros Hsub Hmore.
  pose proof (findCheapestSolution_candidate _ _ _ Hmore) as [Hin Hsat].
  assert (satisfies_all fewer solution) as Hf
    by (intros client Hc; apply Hsat; now apply Hsub).
  apply doesSolutionSatisfyAllClients_true in Hf.
  destruct (findCheapestSolution n fewer) as [s|] eqn:E.
  - exists s. split; [reflexivity |].
    apply (find_sorted_minimal cost (doesSolutionSatisfyAllClients fewer)
             (rankedSolutions n) s (rankedSolutions_sorted n) E solution Hin Hf).
  - unfold findCheapestSolution, JS.find in E.
    pose proof (find_none _ _ E solution Hin). congruence.
Qed.

Lemma fewer_clients_no_dearer_witness :
  exists cheaper,
    findCheapestSolution 2 [client_of 1 [(0, "1")]%Z] = Some cheaper
    /\ (cost cheaper <= cost "11")%Z.
Proof.
  apply (fewer_clients_no_dearer 2 [client_of 1 [(0, "1")]%Z]
           [client_of 0 [(0, "0"); (1, "1")]%Z; client_of 1 [(0, "1")]%Z] "11").
  - simpl. tauto.
  - reflexivity.
Defined.

(** X13. Two clients that each ask for one and the same position, with
    different values, leave no solution. *)
Theorem opposite_clients_no_solution (n : nat) (allRequirements : RequirementSet)
    (position : JS.number) (value1 value2 : string) :
  In [(position, value1)] (clients allRequirements) ->
  In [(position, value2)] (clients allRequirements) ->
  value1 <> value2 ->
  findCheapestSolution n allRequirements = None.
Proof.
  intros H1 H2 Hne.
  destruct (findCheapestSolution n allRequirements) as [s|] eqn:E; [| reflexivity].
  exfalso. apply findCheapestSolution_candidate in E. destruct E as [_ Hsat].
  destruct (Hsat _ H1) as [p1 [[<- | []] M1]].
  destruct (Hsat _ H2) as [p2 [[<- | []] M2]].
  unfold pair_matches in *. simpl in *. congruence.
Qed.

Lemma opposite_clients_no_solution_witness :
  findCheapestSolution 3
    [client_of 0 [(1, "0")]%Z; client_of 1 [(2, "1")]%Z; client_of 2 [(1, "1")]%Z]
  = None.
Proof.
  apply (opposite_clients_no_solution 3
           [client_of 0 [(1, "0")]%Z; client_of 1 [(2, "1")]%Z; client_of 2 [(1, "1")]%Z]
           (JS.Int 1) "0" "1").
  - simpl. tauto.
  - simpl. tauto.
  - discriminate.
Defined.

(** ** More on the requirement satisfier *)

(** X14. The satisfier answers for the pairs of a client taken together:
    over two lists of pairs put end to end it is the disjunction of its
    answers, and the order of the pairs does not matter. *)
Theorem areRequirementsSatisfied_app_permutation (possibleSolution : string) :
  (forall first second : ClientRequirement,
     areRequirementsSatisfied possibleSolution (first ++ second)
     = areRequirementsSatisfied possibleSolution first
       || areRequirementsSatisfied possibleSolution second)
  /\ forall client client' : ClientRequirement,
       Permutation client client' ->
       areRequirementsSatisfied possibleSolution client
       = areRequirementsSatisfied possibleSolution client'.
Proof.
  split.
  - intros first second. induction first as [|[c t] first IH]; simpl; [reflexivity |].
    rewrite IH. now destruct (JS.strict_eq (JS.char_at possibleSolution c) t).
  - intros client client' P.
    assert (forall a b, Permutation a b ->
              areRequirementsSatisfied possibleSolution a = true ->
              areRequirementsSatisfied possibleSolution b = true) as Himp.
    { intros a b Pab Ha. apply areRequirementsSatisfied_true in Ha.
      apply areRequirementsSatisfied_true. destruct Ha as [pair [Hin Hm]].
      exists pair. split; [| exact Hm]. now apply (Permutation_in _ Pab). }
    destruct (areRequirementsSatisfied possibleSolution client) eqn:E1,
             (areRequirementsSatisfied possibleSolution client') eqn:E2;
      try reflexivity.
    + rewrite (Himp _ _ P E1) in E2. discriminate.
    + rewrite (Himp _ _ (Permutation_sym P) E2) in E1. discriminate.
Qed.

Lemma areRequirementsSatisfied_app_permutation_witness :
  Permutation [pair_of 0 "1"; pair_of 4 "0"] [pair_of 4 "0"; pair_of 0 "1"]
  /\ areRequirementsSatisfied "00000" [pair_of 0 "1"; pair_of 4 "0"]
     = areRequirementsSatisfied "00000" [pair_of 4 "0"; pair_of 0 "1"].
Proof.
  assert (P : Permutation [pair_of 0 "1"; pair_of 4 "0"]
                [pair_of 4 "0"; pair_of 0 "1"]) by apply perm_swap.
  split; [exact P |].
  apply (proj2 (areRequirementsSatisfied_app_permutation "00000") _ _ P).
Defined.

(** ** The parser *)

Lemma number_eqb_eq (a b : JS.number) : JS.number_eqb a b = true <-> a = b.
Proof.
  destruct a as [|x], b as [|y]; simpl; try (split; congruence).
  rewrite Z.eqb_eq. split; congruence.
Qed.

Lemma map_set_fresh {V : Type} (m : list (JS.number * V)) (key : JS.number)
    (value : V) :
  ~ In key (map fst m) -> JS.map_set m key value = m ++ [(key, value)].
Proof.
  induction m as [|[k v] m IH]; intros H; simpl in *; [reflexivity |].
  destruct (JS.number_eqb k key) eqn:E.
  - apply number_eqb_eq in E. tauto.
  - rewrite IH; [reflexivity | tauto].
Qed.

Lemma client_keys_succ (count : nat) :
  client_keys (S count) = client_keys count ++ [JS.Int (Z.of_nat count)].
Proof.
  unfold client_keys. rewrite seq_S, map_app. reflexivity.
Qed.

Lemma client_keys_fresh (count : nat) :
  ~ In (JS.Int (Z.of_nat count)) (client_keys count).
Proof.
  unfold client_keys. rewrite in_map_iff. intros [i [E Hin]].
  apply in_seq in Hin. injection E as E. lia.
Qed.

Lemma parseFileInput_loop_keys (lines : list string) (acc : RequirementSet) :
  map fst acc = client_keys (List.length acc) ->
  parseFileInput_loop lines acc
  = combine (client_keys (List.length acc + List.length lines))
      (map snd acc ++ map parseFileInputLine lines).
Proof.
  revert acc. induction lines as [|line lines IH]; intros acc Hk.
  - simpl. rewrite Nat.add_0_r, app_nil_r, <- Hk.
    clear Hk. induction acc as [|[k c] acc IHa]; simpl; [reflexivity | now f_equal].
  - cbn [parseFileInput_loop]. unfold JS.map_size.
    rewrite map_set_fresh by (rewrite Hk; apply client_keys_fresh).
    rewrite IH.
    + rewrite length_app, map_app. simpl. rewrite <- app_assoc. simpl.
      do 2 f_equal. lia.
    + rewrite map_app, length_app. simpl.
      rewrite Nat.add_1_r, client_keys_succ. now rewrite Hk.
Qed.

Lemma map_snd_combine {A B : Type} (keys : list A) (values : list B) :
  List.length keys = List.length values ->
  map snd (combine keys values) = values.
Proof.
  revert values. induction keys as [|k keys IH]; intros [|v values] H;
    simpl in *; try reflexivity; try discriminate.
  f_equal. apply IH. lia.
Qed.

(** X15. [parseFileInput] makes one client of every line after the first,
    in the order of the lines, under the keys 0, 1, 2, ...; the first line
    gives the number of colors. *)
Theorem parseFileInput_clients_in_line_order (colorCountLine : string)
    (clientLines : list string) :
  allRequirements (fst (parseFileInput (colorCountLine :: clientLines)))
  = combine (client_keys (List.length clientLines))
      (map parseFileInputLine clientLines)
  /\ clients (allRequirements (fst (parseFileInput (colorCountLine :: clientLines))))
     = map parseFileInputLine clientLines.
Proof.
  unfold parseFileInput. simpl.
  rewrite parseFileInput_loop_keys by reflexivity. simpl. split; [reflexivity |].
  unfold clients. apply map_snd_combine.
  unfold client_keys. now rewrite !length_map, length_seq.
Qed.

Lemma map_set_In_keys {V : Type} (m : list (JS.number * V)) (key k : JS.number)
    (value : V) :
  In k (map fst (JS.map_set m key value)) -> k = key \/ In k (map fst m).
Proof.
  induction m as [|[k' v'] m IH]; simpl.
  - intros [<- | []]. now left.
  - destruct (JS.number_eqb k' key); simpl; [tauto |].
    intros [<- | H]; [tauto |]. destruct (IH H); tauto.
Qed.

Lemma map_set_NoDup {V : Type} (m : list (JS.number * V)) (key : JS.number)
    (value : V) :
  NoDup (map fst m) -> NoDup (map fst (JS.map_set m key value)).
Proof.
  induction m as [|[k' v'] m IH]; simpl; intros H.
  - repeat constructor. intros [].
  - destruct (JS.number_eqb k' key) eqn:E; simpl; [exact H |].
    inversion H as [|? ? Hnot Hm]; subst. constructor; [| now apply IH].
    intros Hin. apply map_set_In_keys in Hin. destruct Hin as [-> | Hin]; [| tauto].
    assert (JS.number_eqb key key = true) by now apply number_eqb_eq.
    congruence.
Qed.

Lemma map_set_values {V : Type} (Q : V -> Prop) (m : list (JS.number * V))
    (key : JS.number) (value : V) :
  Forall (fun p => Q (snd p)) m -> Q value ->
  Forall (fun p => Q (snd p)) (JS.map_set m key value).
Proof.
  induction 1 as [|[k' v'] m Hp Hm IH]; intros Hv; simpl.
  - now repeat constructor.
  - destruct (JS.number_eqb k' key); constructor; auto.
Qed.

Lemma map_set_not_nil {V : Type} (m : list (JS.number * V)) (key : JS.number)
    (value : V) :
  JS.map_set m key value <> [].
Proof.
  destruct m as [|[k' v'] m]; simpl; [discriminate |].
  destruct (JS.number_eqb k' key); discriminate.
Qed.

Lemma parseFileInputLine_loop_invariant (tokens : list string) :
  forall acc : ClientRequirement,
    (well_formed_client acc ->
     well_formed_client (parseFileInputLine_loop tokens acc)
     /\ (acc <> [] -> parseFileInputLine_loop tokens acc <> []))
    /\ forall token,
         well_formed_client acc ->
         well_formed_client (parseFileInputLine_loop (token :: tokens) acc)
         /\ parseFileInputLine_loop (token :: tokens) acc <> [].
Proof.
  assert (Hstep : forall acc key (colorType : option string),
            well_formed_client acc ->
            well_formed_client
              (JS.map_set acc key (if JS.strict_eq colorType "G" then "0" else "1")%string)).
  { intros acc key colorType [Hk Hv]. split.
    - now apply map_set_NoDup.
    - apply (map_set_values (fun v => v = "0"%string \/ v = "1"%string)); [exact Hv |].
      destruct (JS.strict_eq colorType "G"); tauto. }
  induction tokens as [|t tokens IH]; intros acc.
  - split; [intros H; split; [exact H | tauto] |].
    intros token H. cbn [parseFileInputLine_loop].
    split; [now apply Hstep | apply map_set_not_nil].
  - split.
    + intros H. destruct (IH acc) as [_ IH2]. destruct (IH2 t H) as [W N].
      split; [exact W | intros _; exact N].
    + intros token H. cbn [parseFileInputLine_loop].
      match goal with
      | |- context [parseFileInputLine_loop tokens ?m] =>
          destruct (IH m) as [IH1 _];
          destruct IH1 as [W N]; [now apply Hstep |];
          split; [exact W | apply N; apply map_set_not_nil]
      end.
Qed.

(** X16. Whatever the line, the parser makes a client with at least one
    pair, whose positions are all different and whose values are all "0"
    or "1". *)
Theorem parseFileInputLine_well_formed (line : string) :
  parseFileInputLine line <> []
  /\ NoDup (map fst (parseFileInputLine line))
  /\ Forall (fun pair => snd pair = "0"%string \/ snd pair = "1"%string)
       (parseFileInputLine line).
Proof.
  unfold parseFileInputLine.
  destruct (JS.split JS.is_whitespace line) as [|token tokens] eqn:E.
  - now apply split_not_empty in E.
  - destruct (parseFileInputLine_loop_invariant tokens []) as [_ H].
    destruct (H token) as [[Hk Hv] Hn]; [split; constructor |].
    tauto.
Qed.

(** ** Blank lines *)

Lemma parseFileInput_loop_clients (lines : list string) :
  clients (parseFileInput_loop lines []) = map parseFileInputLine lines.
Proof.
  rewrite parseFileInput_loop_keys by reflexivity. simpl.
  unfold clients. apply map_snd_combine.
  unfold client_keys. now rewrite !length_map, length_seq.
Qed.

Lemma blank_line_no_solution (n : nat) (lines : list string) :
  In ""%string lines ->
  findCheapestSolution n (parseFileInput_loop lines []) = None.
Proof.
  intros Hin. unfold findCheapestSolution. apply find_none_all_false.
  intros s _. rewrite doesSolutionSatisfyAllClients_forallb.
  rewrite parseFileInput_loop_clients.
  apply not_true_is_false. rewrite forallb_forall. intros H.
  specialize (H (parseFileInputLine "") (in_map _ _ _ Hin)). discriminate.
Qed.

Lemma split_snoc (separator : ascii -> bool) (s : string) (c : ascii) :
  separator c = true ->
  JS.split separator (s ++ String c "") = JS.split separator s ++ [""%string].
Proof.
  intros Hc. induction s as [|a s IH]; simpl.
  - now rewrite Hc.
  - rewrite IH. destruct (separator a); [reflexivity |].
    pose proof (split_not_empty separator s) as N.
    destruct (JS.split separator s); [congruence | reflexivity].
Qed.

(** X17. A file whose text ends with a line feed never gives a solution:
    the empty last line becomes a client that no assignment satisfies, so
    [optimizer] answers "No solution exists", unless the color count is
    not a natural number and the call throws. *)
Theorem optimizer_trailing_newline (readFileSync : string -> option string)
    (fileName : string) (others : list string) (text : string) :
  readFileSync fileName = Some (text ++ newline)%string ->
  optimizer readFileSync (fileName :: others) = JS.Return "No solution exists"%string
  \/ optimizer readFileSync (fileName :: others) = JS.Throw JS.RangeError.
Proof.
  intros H. unfold optimizer, readFileContents. rewrite H.
  unfold newline. rewrite split_snoc by reflexivity.
  destruct (JS.split (Ascii.eqb "010") text) as [|first lines] eqn:E;
    [now apply split_not_empty in E |].
  simpl app. unfold parseFileInput. cbn [JS.shift colors allRequirements].
  unfold findCheapestSolution_call.
  destruct (JS.parseInt (Some first) 10) as [|z]; [now right |].
  destruct (z <? -1074)%Z; [now left |].
  destruct (z <? 0)%Z; [now right | left].
  rewrite blank_line_no_solution; [reflexivity |].
  apply in_or_app. right. now left.
Qed.

Lemma optimizer_trailing_newline_witness :
  optimizer (fun _ => Some (testInput ++ newline)%string) ["testInput.txt"%string]
  = JS.Return "No solution exists"%string.
Proof.
  destruct (optimizer_trailing_newline
              (fun _ => Some (testInput ++ newline)%string)
              "testInput.txt" [] testInput eq_refl) as [H | H].
  - exact H.
  - vm_compute in H. discriminate H.
Defined.

(** ** Outcomes of [optimizer] *)

(** X18. [optimizer] throws when it is given no file name, when the file
    cannot be read, and when the first line of the file reads as no number
    or as a negative integer down to -1074, whatever the other lines are.
    Below -1074 it does not throw: it answers "No solution exists". *)
Theorem optimizer_throws (readFileSync : string -> option string) :
  optimizer readFileSync [] = JS.Throw JS.TypeError
  /\ (forall fileName others,
        readFileSync fileName = None ->
        optimizer readFileSync (fileName :: others) = JS.Throw JS.SystemError)
  /\ (forall fileName others text,
        readFileSync fileName = Some text ->
        JS.parseInt (Some (first_line text)) 10 = JS.NaN
        \/ (exists z, JS.parseInt (Some (first_line text)) 10 = JS.Int z
                      /\ (-1074 <= z < 0)%Z) ->
        optimizer readFileSync (fileName :: others) = JS.Throw JS.RangeError)
  /\ (forall fileName others text z,
        readFileSync fileName = Some text ->
        JS.parseInt (Some (first_line text)) 10 = JS.Int z ->
        (z < -1074)%Z ->
        optimizer readFileSync (fileName :: others)
        = JS.Return "No solution exists"%string).
Proof.
  split; [reflexivity |]. split; [| split].
  - intros fileName others H. unfold optimizer, readFileContents. now rewrite H.
  - intros fileName others text H Hc.
    unfold optimizer, readFileContents. rewrite H.
    unfold first_line in Hc.
    destruct (JS.split (Ascii.eqb "010") text) as [|first lines] eqn:E;
      [now apply split_not_empty in E |].
    unfold parseFileInput. cbn [JS.shift colors allRequirements hd] in *.
    unfold findCheapestSolution_call.
    destruct Hc as [-> | [z [-> Hz]]]; [reflexivity |].
    destruct (z <? -1074)%Z eqn:Z1; [apply Z.ltb_lt in Z1; lia |].
    destruct (z <? 0)%Z eqn:Z0; [reflexivity | apply Z.ltb_ge in Z0; lia].
  - intros fileName others text z H Hc Hz.
    unfold optimizer, readFileContents. rewrite H.
    unfold first_line in Hc.
    destruct (JS.split (Ascii.eqb "010") text) as [|first lines] eqn:E;
      [now apply split_not_empty in E |].
    unfold parseFileInput. cbn [JS.shift colors allRequirements hd] in *.
    unfold findCheapestSolution_call. rewrite Hc.
    destruct (z <? -1074)%Z eqn:Z1; [reflexivity | apply Z.ltb_ge in Z1; lia].
Qed.

Lemma optimizer_throws_witness :
  optimizer (fun _ => Some "five colors"%string) ["colors.txt"%string]
  = JS.Throw JS.RangeError
  /\ optimizer (fun _ => Some "-1"%string) ["colors.txt"%string]
     = JS.Throw JS.RangeError
  /\ optimizer (fun _ => Some "-2000"%string) ["colors.txt"%string]
     = JS.Return "No solution exists"%string.
Proof.
  split; [| split].
  - apply (proj1 (proj2 (proj2 (optimizer_throws (fun _ => Some "five colors"%string))))
             "colors.txt"%string [] "five colors"%string eq_refl).
    left. reflexivity.
  - apply (proj1 (proj2 (proj2 (optimizer_throws (fun _ => Some "-1"%string))))
             "colors.txt"%string [] "-1"%string eq_refl).
    right. exists (-1)%Z. split; [reflexivity | lia].
  - apply (proj2 (proj2 (proj2 (optimizer_throws (fun _ => Some "-2000"%string))))
             "colors.txt"%string [] "-2000"%string (-2000)%Z eq_refl);
      [reflexivity | lia].
Defined.

Lemma transformSolution_cons (c : ascii) (solution : string) :
  transformSolution (Some (String c solution))
  = String (if Ascii.eqb c "0" then "G" else "M")%char
      (String " " (transformSolution (Some solution))).
Proof.
  unfold transformSolution. cbn [transformSolution_loop].
  rewrite transformSolution_loop_acc. simpl.
  rewrite Ascii.eqb_sym. destruct (Ascii.eqb "0" c); reflexivity.
Qed.

Lemma transformSolution_length (solution : string) :
  String.length (transformSolution (Some solution)) = 2 * String.length solution.
Proof.
  induction solution as [|c solution IH]; [reflexivity |].
  rewrite transformSolution_cons. cbn [String.length]. rewrite IH. lia.
Qed.

(** X19. When [optimizer] returns, what it returns is "No solution exists"
    or the letters of the solution the search finds for the number of
    colors on the first line of the file and the clients of the other
    lines: a string of binary digits, one digit per color (one digit when
    there is no color), printed with two units per digit. *)
Theorem optimizer_output_shape (readFileSync : string -> option string)
    (argv : list string) (output : string) :
  optimizer readFileSync argv = JS.Return output ->
  exists fileName text,
    hd_error argv = Some fileName
    /\ readFileSync fileName = Some text
    /\ (output = "No solution exists"%string
        \/ exists (n : nat) (solution : string),
             JS.parseInt (Some (first_line text)) 10 = JS.Int (Z.of_nat n)
             /\ findCheapestSolution n
                  (allRequirements
                     (fst (parseFileInput (JS.split (Ascii.eqb "010") text))))
                = Some solution
             /\ String.length solution = Nat.max n 1
             /\ all_binary solution = true
             /\ render_spec solution = Some output
             /\ String.length output = 2 * Nat.max n 1).
Proof.
  intros H. apply optimizer_returns_transformSolution in H.
  destruct H as [fileName [text [cheapestSolution [Hf [Hr [Hc ->]]]]]].
  exists fileName, text. split; [exact Hf |]. split; [exact Hr |].
  unfold findCheapestSolution_call in Hc.
  destruct (JS.parseInt (Some (first_line text)) 10) as [|z] eqn:P; [discriminate |].
  destruct (z <? -1074)%Z; [injection Hc as <-; now left |].
  destruct (z <? 0)%Z eqn:Z0; [discriminate |]. apply Z.ltb_ge in Z0.
  injection Hc as Hc.
  destruct cheapestSolution as [s|]; [right | now left].
  pose proof (findCheapestSolution_candidate _ _ _ Hc) as [Hin _].
  assert (String.length s = Nat.max (Z.to_nat z) 1 /\ all_binary s = true)
    as [Hl Hb].
  { destruct (Z.to_nat z) as [|n].
    - destruct Hin as [<- | []]. now split.
    - destruct (rankedSolutions_assignments (S n) s) as [Hl Hb]; [lia | exact Hin |].
      split; [lia | exact Hb]. }
  exists (Z.to_nat z), s. split; [f_equal; lia |]. split; [exact Hc |].
  split; [exact Hl |]. split; [exact Hb |].
  split; [now apply render_spec_binary |].
  now rewrite transformSolution_length, Hl.
Qed.

Lemma optimizer_output_shape_witness :
  exists fileName text,
    hd_error ["testInput.txt"%string] = Some fileName
    /\ testFiles fileName = Some text
    /\ ("G G G G M "%string = "No solution exists"%string
        \/ exists (n : nat) (solution : string),
             JS.parseInt (Some (first_line text)) 10 = JS.Int (Z.of_nat n)
             /\ findCheapestSolution n
                  (allRequirements
                     (fst (parseFileInput (JS.split (Ascii.eqb "010") text))))
                = Some solution
             /\ String.length solution = Nat.max n 1
             /\ all_binary solution = true
             /\ render_spec solution = Some "G G G G M "%string
             /\ String.length "G G G G M " = 2 * Nat.max n 1).
Proof.
  apply (optimizer_output_shape testFiles ["testInput.txt"%string]).
  vm_compute. reflexivity.
Defined.

(** ** More on printing *)

(** X20. The text printed for a solution is never "No solution exists", it
    has two units for every unit of the solution, and two different
    solutions made of binary digits are printed differently. *)
Theorem transformSolution_faithful :
  (forall solution : string,
     transformSolution (Some solution) <> transformSolution None)
  /\ (forall solution : string,
        String.length (transformSolution (Some solution))
        = 2 * String.length solution)
  /\ forall solution solution' : string,
       all_binary solution = true -> all_binary solution' = true ->
       transformSolution (Some solution) = transformSolution (Some solution') ->
       solution = solution'.
Proof.
  split; [| split; [exact transformSolution_length |]].
  - intros [|c solution]; [discriminate |].
    rewrite transformSolution_cons. simpl.
    destruct (Ascii.eqb c "0"); discriminate.
  - induction solution as [|c s IH]; intros [|c' s'] Hb Hb' H.
    + reflexivity.
    + rewrite transformSolution_cons in H. discriminate.
    + rewrite transformSolution_cons in H. discriminate.
    + rewrite !transformSolution_cons in H. injection H as Hc Hs.
      simpl in Hb, Hb'. apply andb_true_iff in Hb, Hb'.
      destruct Hb as [Hc1 Hb], Hb' as [Hc2 Hb'].
      rewrite (IH s' Hb Hb' Hs). f_equal.
      unfold is_binary_digit in Hc1, Hc2.
      destruct (Ascii.eqb c "0") eqn:E1, (Ascii.eqb c' "0") eqn:E2;
        try discriminate; simpl in Hc1, Hc2;
        rewrite ?Ascii.eqb_eq in *; congruence.
Qed.

Lemma transformSolution_faithful_witness :
  all_binary "01" = true
  /\ transformSolution (Some "01"%string) = "G M "%string
  /\ "01"%string = "01"%string.
Proof.
  split; [reflexivity |]. split; [reflexivity |].
  apply (proj2 (proj2 transformSolution_faithful) "01"%string "01"%string);
    reflexivity.
Defined.

(** ** Reading the file *)

Lemma split_concat (text : string) :
  String.concat newline (JS.split (Ascii.eqb "010") text) = text.
Proof.
  induction text as [|c text IH]; [reflexivity |].
  cbn [JS.split]. pose proof (split_not_empty (Ascii.eqb "010") text) as N.
  destruct (Ascii.eqb "010" c) eqn:E.
  - apply Ascii.eqb_eq in E. subst c.
    destruct (JS.split (Ascii.eqb "010") text) as [|t ts]; [congruence |].
    change (String.concat newline (""%string :: t :: ts))
      with ("" ++ newline ++ String.concat newline (t :: ts))%string.
    rewrite IH. reflexivity.
  - destruct (JS.split (Ascii.eqb "010") text) as [|t ts]; [congruence |].
    destruct ts as [|t' ts].
    + simpl in *. now rewrite IH.
    + change (String.concat newline (String c t :: t' :: ts))
        with (String c (t ++ newline ++ String.concat newline (t' :: ts)))%string.
      change (String.concat newline (t :: t' :: ts))
        with (t ++ newline ++ String.concat newline (t' :: ts))%string in IH.
      now rewrite IH.
Qed.

Lemma split_no_separator (separator : ascii -> bool) (text : string) :
  Forall (fun line => has_unit separator line = false) (JS.split separator text).
Proof.
  induction text as [|c text IH]; simpl; [now repeat constructor |].
  destruct (separator c) eqn:E; [now constructor |].
  destruct (JS.split separator text) as [|t ts].
  - constructor; [simpl; now rewrite E | constructor].
  - inversion IH; subst. constructor; [simpl; now rewrite E | assumption].
Qed.

(** X21. [readFileContents] loses nothing of a file it can read: there is
    at least one line, no line holds a line feed, and the lines joined by
    line feeds are the text of the file. *)
Theorem readFileContents_lines_of_text (readFileSync : string -> option string)
    (fileName text : string) :
  readFileSync fileName = Some text ->
  exists fileLines,
    readFileContents readFileSync fileName = JS.Return fileLines
    /\ fileLines <> []
    /\ Forall (fun line => has_unit (Ascii.eqb "010") line = false) fileLines
    /\ String.concat newline fileLines = text.
Proof.
  intros H. unfold readFileContents. rewrite H. eexists. split; [reflexivity |].
  split; [apply split_not_empty |]. split; [apply split_no_separator |].
  apply split_concat.
Qed.

Lemma readFileContents_lines_of_text_witness :
  exists fileLines,
    readFileContents testFiles "testInput.txt" = JS.Return fileLines
    /\ fileLines <> []
    /\ Forall (fun line => has_unit (Ascii.eqb "010") line = false) fileLines
    /\ String.concat newline fileLines = testInput.
Proof.
  apply (readFileContents_lines_of_text testFiles "testInput.txt" testInput).
  reflexivity.
Defined.
